(** * EvolvEdge-AI: settings provider and mock-interview session (src/App.tsx)

    A shallow embedding of the two stateful parts of [App.tsx]:

    - [SettingsProvider]: the translation cache behind [translate] and the
      voice registry behind [loadVoices];
    - [MockInterviewSessionScreen]: the interview session, its handlers, the
      speak-on-entry effect and the events that drive them.

    JavaScript strings are sequences of UTF-16 code units, React state cells
    are record fields, and a handler is a function of the render whose
    constants it closes over and of the world it runs in. *)

From Stdlib Require Import NArith String Ascii.
From stdpp Require Import gmap list.

Set Default Proof Using "Type".

(** ** JavaScript strings *)

Module JS.

(** A string is its list of UTF-16 code units. *)
Abbreviation jsstring := (list N).

(** The code units of an ASCII literal. *)
Definition js (s : string) : jsstring :=
  List.map N_of_ascii (list_ascii_of_string s).

(** ECMAScript [WhiteSpace] and [LineTerminator] code points, the ones
    [String.prototype.trim] removes. *)
Definition is_whitespace (c : N) : bool :=
  ((c =? 0x0009) || (c =? 0x000A) || (c =? 0x000B) || (c =? 0x000C) ||
   (c =? 0x000D) || (c =? 0x0020) || (c =? 0x00A0) || (c =? 0x1680) ||
   ((0x2000 <=? c) && (c <=? 0x200A)) ||
   (c =? 0x2028) || (c =? 0x2029) || (c =? 0x202F) || (c =? 0x205F) ||
   (c =? 0x3000) || (c =? 0xFEFF))%N.

Fixpoint trimStart (s : jsstring) : jsstring :=
  match s with
  | [] => []
  | c :: rest => if is_whitespace c then trimStart rest else s
  end.

Definition trimEnd (s : jsstring) : jsstring :=
  rev (trimStart (rev s)).

(** [s.trim()] *)
Definition trim (s : jsstring) : jsstring := trimEnd (trimStart s).

(** Truthiness of a string value: every string but the empty one. *)
Definition truthy (s : jsstring) : bool :=
  match s with [] => false | _ :: _ => true end.

(** Truthiness of a [string | null] value. *)
Definition truthy_opt (o : option jsstring) : bool :=
  match o with Some s => truthy s | None => false end.

(** [s.replace(/\*/g, '')]: every asterisk (U+002A) is dropped. *)
Definition replace_asterisks (s : jsstring) : jsstring :=
  List.filter (fun c => negb (c =? 0x2A)%N) s.

(** [s.startsWith(p)] *)
Fixpoint startsWith (p s : jsstring) : bool :=
  match p, s with
  | [], _ => true
  | _ :: _, [] => false
  | a :: p', b :: s' => (a =? b)%N && startsWith p' s'
  end.

End JS.

Import JS.

(** ** Settings provider *)

Module Settings.

(** [type Language = 'English' | 'Tamil'] *)
Inductive Language := English | Tamil.

#[global] Instance Language_eq_dec : EqDecision Language.
Proof. solve_decision. Defined.

(** [Partial<Record<Language, string>>]: one optional slot per language. *)
Record Translations := mkTranslations {
  slotEnglish : option jsstring;
  slotTamil : option jsstring
}.

Definition noTranslations : Translations := mkTranslations None None.

Definition slot (e : Translations) (l : Language) : option jsstring :=
  match l with English => slotEnglish e | Tamil => slotTamil e end.

Definition set_slot (e : Translations) (l : Language) (v : jsstring)
  : Translations :=
  match l with
  | English => mkTranslations (Some v) (slotTamil e)
  | Tamil => mkTranslations (slotEnglish e) (Some v)
  end.

(** The [translationCache] ref together with the record of the calls made
    to the external [translateText]. Keys are taken to be ordinary texts,
    not names of members every JavaScript object inherits. *)
Record TranslateState := mkTranslateState {
  translationCache : gmap jsstring Translations;
  translateTextCalls : list (jsstring * Language)
}.


(** [translationCache.current[text]?.[language]] *)
Definition cached (c : gmap jsstring Translations) (text : jsstring)
    (language : Language) : option jsstring :=
  match c !! text with
  | Some e => slot e language
  | None => None
  end.

Section Translate.

(** The external translation collaborator. *)
Variable translateText : jsstring -> Language -> jsstring.

(** [translate], run to completion; [language] is the state cell the
    callback closes over. *)
Definition translate (language : Language) (text : jsstring)
    (st : TranslateState) : jsstring * TranslateState :=
  match language with
  | English => (text, st)
  | _ =>
    let miss :=
      let translated := translateText text language in
      let entry :=
        match translationCache st !! text with
        | Some e => e
        | None => noTranslations
        end in
      (translated,
       mkTranslateState
         (<[text := set_slot entry language translated]>
            (translationCache st))
         (translateTextCalls st ++ [(text, language)])) in
    match cached (translationCache st) text language with
    | Some v => if truthy v then (v, st) else miss
    | None => miss
    end
  end.

End Translate.

(** *** Voice registry *)

(** The fields of a [SpeechSynthesisVoice] the provider reads. *)
Record Voice := mkVoice {
  voiceURI : jsstring;
  lang : jsstring;
  isDefault : bool
}.

Record VoiceState := mkVoiceState {
  availableVoices : list Voice;
  selectedVoiceURI : option jsstring
}.

(** [useState([])] and [useState(null)] *)
Definition initialVoiceState : VoiceState := mkVoiceState [] None.

Definition setAvailableVoices (vs : list Voice) (st : VoiceState) :=
  mkVoiceState vs (selectedVoiceURI st).

Definition setSelectedVoiceURI (uri : jsstring) (st : VoiceState) :=
  mkVoiceState (availableVoices st) (Some uri).

(** The voice the default policy picks among the filtered voices. *)
Definition defaultChoice (voices : list Voice) : option jsstring :=
  match List.find isDefault voices with
  | Some d => Some (voiceURI d)
  | None =>
    match voices with
    | v0 :: _ => Some (voiceURI v0)
    | [] => None
    end
  end.

(** [getVoices().filter(v => v.lang.startsWith('en'))] *)
Definition englishVoices (getVoices : list Voice) : list Voice :=
  List.filter (fun v => startsWith (js "en") (lang v)) getVoices.

(** [loadVoices]. [closure_selectedVoiceURI] is the constant
    [selectedVoiceURI] of the render in which the enclosing effect ran;
    [getVoices] is what [speechSynthesis.getVoices()] returns. *)
Definition loadVoices (closure_selectedVoiceURI : option jsstring)
    (getVoices : list Voice) (st : VoiceState) : VoiceState :=
  let voices := englishVoices getVoices in
  let st1 := setAvailableVoices voices st in
  if negb (truthy_opt closure_selectedVoiceURI) && (0 <? length voices)
  then
    match defaultChoice voices with
    | Some uri => setSelectedVoiceURI uri st1
    | None => st1
    end
  else st1.

(** The effect declaring [loadVoices] has the dependency list [[]]: it runs
    once, in the first render, where [selectedVoiceURI] is the initial
    [null]. That one closure is installed as [onvoiceschanged] and called
    once directly. *)
Definition onvoiceschanged : list Voice -> VoiceState -> VoiceState :=
  loadVoices (selectedVoiceURI initialVoiceState).

Definition mountVoices (getVoices : list Voice) : VoiceState :=
  onvoiceschanged getVoices initialVoiceState.

End Settings.

(** ** Mock-interview session *)

Module Interview.

Inductive InterviewState :=
| STARTING
| AWAITING_ANSWER
| LISTENING
| PROCESSING
| DISPLAYING_FEEDBACK
| PROCESSING_SUMMARY
| COMPLETED.

#[global] Instance InterviewState_eq_dec : EqDecision InterviewState.
Proof. solve_decision. Defined.

(** [InterviewTurn] of [types.ts]. *)
Module Turn.
Record InterviewTurn := mk {
  question : jsstring;
  answer : jsstring;
  feedback : jsstring
}.
End Turn.
Abbreviation InterviewTurn := Turn.InterviewTurn.

(** The [useState] cells of [MockInterviewSessionScreen]. A value of this
    type is also what one render of the component sees: the constants its
    handlers close over. *)
Record Cells := mkCells {
  interviewState : InterviewState;
  currentQuestion : jsstring;
  stagedNextQuestion : option jsstring;
  userTranscript : jsstring;
  feedback : jsstring;
  interviewHistory : list InterviewTurn;
  summary : jsstring
}.

Definition initialCells : Cells :=
  mkCells STARTING [] None [] [] [] [].

(** What [getInterviewFeedbackAndNextQuestion] resolves to; the code
    tests [nextQuestion] for truthiness, so it may be missing. *)
Record FeedbackResponse := mkFeedbackResponse {
  feedbackText : jsstring;
  nextQuestion : option jsstring
}.

(** Calls that leave the component, in the order they are made. *)
Inductive Effect :=
| CallSendMessageToAI (prompt : jsstring)
| CallGetInterviewFeedbackAndNextQuestion (question transcript : jsstring)
| CallGenerateInterviewSummary (history : list InterviewTurn)
| SpeakText (text : jsstring)
| SpeechSynthesisCancel
| RecognitionStart
| RecognitionStop
| Alert
| Navigate (path : jsstring).

(** An [await] that has not resumed yet, with the constants its
    continuation closes over. *)
Inductive Pending :=
| AwaitSendMessageToAI
| AwaitFeedback (closure : Cells) (transcript : jsstring)
| AwaitSummary.

(** The recognition object kept in [recognitionRef]. It is built once; its
    [onresult] calls the [handleAnswerSubmission] of the render that built
    it, so that render is part of the object. *)
Record Recognition := mkRecognition { builtIn : Cells }.

(** The browser's speech recognizer as the component relies on it: a
    capture session runs from [start()] until it delivers its result or an
    error, and then winds down until its end event, which may therefore
    arrive after the result was handled. *)
Inductive Capture := Idle | Capturing | Ending.

Record World := mkWorld {
  cells : Cells;
  recognitionRef : option Recognition;
  capture : Capture;
  pending : list Pending;
  effects : list Effect;
  (** dependencies seen by the last run of the speak effect *)
  speakDeps : option (jsstring * InterviewState * nat);
  (** identity of the [speakText] callback handed down by the provider *)
  speakTextId : nat;
  (** whether [window] has [SpeechRecognition] or its webkit variant *)
  hasSpeechRecognition : bool;
  mounted : bool
}.

(** *** State setters *)

Definition onCells (f : Cells -> Cells) (w : World) : World :=
  mkWorld (f (cells w)) (recognitionRef w) (capture w) (pending w)
    (effects w) (speakDeps w) (speakTextId w) (hasSpeechRecognition w)
    (mounted w).

Definition setInterviewState (v : InterviewState) : World -> World :=
  onCells (fun c => mkCells v (currentQuestion c) (stagedNextQuestion c)
    (userTranscript c) (feedback c) (interviewHistory c) (summary c)).

Definition setCurrentQuestion (v : jsstring) : World -> World :=
  onCells (fun c => mkCells (interviewState c) v (stagedNextQuestion c)
    (userTranscript c) (feedback c) (interviewHistory c) (summary c)).

Definition setStagedNextQuestion (v : option jsstring) : World -> World :=
  onCells (fun c => mkCells (interviewState c) (currentQuestion c) v
    (userTranscript c) (feedback c) (interviewHistory c) (summary c)).

Definition setUserTranscript (v : jsstring) : World -> World :=
  onCells (fun c => mkCells (interviewState c) (currentQuestion c)
    (stagedNextQuestion c) v (feedback c) (interviewHistory c) (summary c)).

Definition setFeedback (v : jsstring) : World -> World :=
  onCells (fun c => mkCells (interviewState c) (currentQuestion c)
    (stagedNextQuestion c) (userTranscript c) v (interviewHistory c)
    (summary c)).

(** [setInterviewHistory] is only used with an updater function. *)
Definition setInterviewHistory
    (f : list InterviewTurn -> list InterviewTurn) : World -> World :=
  onCells (fun c => mkCells (interviewState c) (currentQuestion c)
    (stagedNextQuestion c) (userTranscript c) (feedback c)
    (f (interviewHistory c)) (summary c)).

Definition setSummary (v : jsstring) : World -> World :=
  onCells (fun c => mkCells (interviewState c) (currentQuestion c)
    (stagedNextQuestion c) (userTranscript c) (feedback c)
    (interviewHistory c) v).

Definition setRecognitionRef (r : option Recognition) (w : World) : World :=
  mkWorld (cells w) r (capture w) (pending w) (effects w) (speakDeps w)
    (speakTextId w) (hasSpeechRecognition w) (mounted w).

Definition setCapture (c : Capture) (w : World) : World :=
  mkWorld (cells w) (recognitionRef w) c (pending w) (effects w)
    (speakDeps w) (speakTextId w) (hasSpeechRecognition w) (mounted w).

Definition setPending (p : list Pending) (w : World) : World :=
  mkWorld (cells w) (recognitionRef w) (capture w) p (effects w)
    (speakDeps w) (speakTextId w) (hasSpeechRecognition w) (mounted w).

Definition emit (e : Effect) (w : World) : World :=
  mkWorld (cells w) (recognitionRef w) (capture w) (pending w)
    (effects w ++ [e]) (speakDeps w) (speakTextId w)
    (hasSpeechRecognition w) (mounted w).

Definition setSpeakDeps (d : option (jsstring * InterviewState * nat))
    (w : World) : World :=
  mkWorld (cells w) (recognitionRef w) (capture w) (pending w) (effects w)
    d (speakTextId w) (hasSpeechRecognition w) (mounted w).

Definition setSpeakTextId (n : nat) (w : World) : World :=
  mkWorld (cells w) (recognitionRef w) (capture w) (pending w) (effects w)
    (speakDeps w) n (hasSpeechRecognition w) (mounted w).

Definition setMounted (b : bool) (w : World) : World :=
  mkWorld (cells w) (recognitionRef w) (capture w) (pending w) (effects w)
    (speakDeps w) (speakTextId w) (hasSpeechRecognition w) b.

Definition await (p : Pending) (w : World) : World :=
  setPending (pending w ++ [p]) w.

(** *** Handlers

    A handler takes the render [r] whose constants it closes over. For a
    click that is the render on screen, [cells w]; for the recognition
    callbacks it is the render that built the recognition object. *)

Definition openingPrompt : jsstring :=
  js ("Start a mock interview for a senior product manager role. "
      ++ "Ask me the first behavioral question.").

(** Cleanup of the mount effect. *)
Definition teardown (w : World) : World :=
  let w1 := emit SpeechSynthesisCancel w in
  let w2 := match recognitionRef w1 with
            | Some _ => emit RecognitionStop w1
            | None => w1
            end in
  setMounted false w2.

(** [navigate(path)] leaves the screen: the component unmounts. *)
Definition navigate (path : jsstring) (w : World) : World :=
  teardown (emit (Navigate path) w).

(** [startInterview] up to its [await]. *)
Definition startInterview (w : World) : World :=
  await AwaitSendMessageToAI
    (emit (CallSendMessageToAI openingPrompt)
       (setInterviewState PROCESSING w)).

(** [startInterview] after its [await]. *)
Definition startInterview_resume (firstQuestion : jsstring) (w : World)
  : World :=
  setInterviewState AWAITING_ANSWER
    (setCurrentQuestion (replace_asterisks firstQuestion) w).

(** The speak effect, with dependencies
    [[currentQuestion, interviewState, speakText]]: it runs after a render
    in which one of them differs from the previous run. *)
Definition depsOf (w : World) : jsstring * InterviewState * nat :=
  (currentQuestion (cells w), interviewState (cells w), speakTextId w).

Definition speakEffect (w : World) : World :=
  if decide (speakDeps w = Some (depsOf w)) then w
  else
    let w1 := setSpeakDeps (Some (depsOf w)) w in
    if truthy (currentQuestion (cells w)) &&
       bool_decide (interviewState (cells w) = AWAITING_ANSWER)
    then emit (SpeakText (currentQuestion (cells w))) w1
    else w1.

(** [handleEndInterview] up to its [await]. *)
Definition handleEndInterview (r : Cells) (isNaturalEnd : bool) (w : World)
  : World :=
  if (length (interviewHistory r) =? 0) && negb isNaturalEnd
  then navigate (js "/guide") w
  else
    await AwaitSummary
      (emit (CallGenerateInterviewSummary (interviewHistory r))
         (setInterviewState PROCESSING_SUMMARY w)).

(** [handleEndInterview] after its [await]. *)
Definition handleEndInterview_resume (finalSummary : jsstring) (w : World)
  : World :=
  setInterviewState COMPLETED
    (setSummary (replace_asterisks finalSummary) w).

(** [handleAnswerSubmission] up to its [await]. *)
Definition handleAnswerSubmission (r : Cells) (transcript : jsstring)
    (w : World) : World :=
  if negb (truthy (trim transcript))
  then setInterviewState AWAITING_ANSWER w
  else
    await (AwaitFeedback r transcript)
      (emit (CallGetInterviewFeedbackAndNextQuestion
               (currentQuestion r) transcript)
         (setInterviewState PROCESSING w)).

(** [handleAnswerSubmission] after its [await]. *)
Definition handleAnswerSubmission_resume (r : Cells) (transcript : jsstring)
    (resp : FeedbackResponse) (w : World) : World :=
  let cleanedFeedback := replace_asterisks (feedbackText resp) in
  let cleanedNextQuestion :=
    match nextQuestion resp with
    | Some q => if truthy q then Some (replace_asterisks q) else None
    | None => None
    end in
  setInterviewState DISPLAYING_FEEDBACK
    (setStagedNextQuestion cleanedNextQuestion
       (setInterviewHistory
          (fun prev => prev ++ [Turn.mk (currentQuestion r) transcript
                                  cleanedFeedback])
          (setFeedback cleanedFeedback w))).

(** [recognition.start()]: a session begins unless one is still open. *)
Definition recognition_start (w : World) : World :=
  let w1 := emit RecognitionStart w in
  match capture w1 with
  | Idle => setCapture Capturing w1
  | _ => w1
  end.

(** [handleToggleListening] *)
Definition handleToggleListening (r : Cells) (w : World) : World :=
  if negb (hasSpeechRecognition w) then emit Alert w
  else if decide (interviewState r = LISTENING) then
    match recognitionRef w with
    | Some _ => emit RecognitionStop w
    | None => w
    end
  else
    let w1 := match recognitionRef w with
              | Some _ => w
              | None => setRecognitionRef (Some (mkRecognition r)) w
              end in
    recognition_start (setUserTranscript [] (setInterviewState LISTENING w1)).

(** [recognition.onresult] *)
Definition recognition_onresult (rec : Recognition) (transcript : jsstring)
    (w : World) : World :=
  handleAnswerSubmission (builtIn rec) transcript
    (setUserTranscript transcript w).

(** [recognition.onend] *)
Definition recognition_onend (w : World) : World :=
  setInterviewState
    (if decide (interviewState (cells w) = LISTENING)
     then AWAITING_ANSWER else interviewState (cells w)) w.

(** [recognition.onerror] *)
Definition recognition_onerror (w : World) : World :=
  setInterviewState AWAITING_ANSWER w.

(** [handleNextQuestion] *)
Definition handleNextQuestion (r : Cells) (w : World) : World :=
  match stagedNextQuestion r with
  | Some q =>
    if truthy q then
      setInterviewState AWAITING_ANSWER
        (setStagedNextQuestion None
           (setUserTranscript []
              (setFeedback []
                 (setCurrentQuestion q w))))
    else handleEndInterview r true w
  | None => handleEndInterview r true w
  end.

(** *** Events

    What can happen to a mounted session: an awaited call resolves, the
    user clicks a button that the current render shows, the recognizer
    fires one of its callbacks, or the provider hands down a new
    [speakText] (its voice list or selected voice changed). *)
Inductive Event :=
| SendMessageToAIResolved (firstQuestion : jsstring)
| FeedbackResolved (resp : FeedbackResponse)
| SummaryResolved (finalSummary : jsstring)
| ClickMicrophone
| ClickEndInterview
| ClickNextQuestion
| ClickHeaderBack
| RecognitionResult (transcript : jsstring)
| RecognitionEnd
| RecognitionError
| SpeakTextChanged.

Definition isAwaitSendMessageToAI (p : Pending) : bool :=
  match p with AwaitSendMessageToAI => true | _ => false end.
Definition isAwaitFeedback (p : Pending) : bool :=
  match p with AwaitFeedback _ _ => true | _ => false end.
Definition isAwaitSummary (p : Pending) : bool :=
  match p with AwaitSummary => true | _ => false end.

(** The oldest pending await of one kind, and the others. *)
Fixpoint takeFirst (f : Pending -> bool) (l : list Pending)
  : option (Pending * list Pending) :=
  match l with
  | [] => None
  | p :: rest =>
    if f p then Some (p, rest)
    else match takeFirst f rest with
         | Some (q, rest') => Some (q, p :: rest')
         | None => None
         end
  end.

(** The handler an event runs; [None] when the event cannot happen in
    [w] (nothing to resolve, button not rendered, no capture session). *)
Definition handle (e : Event) (w : World) : option World :=
  match e with
  | SendMessageToAIResolved firstQuestion =>
    match takeFirst isAwaitSendMessageToAI (pending w) with
    | Some (_, rest) =>
      Some (startInterview_resume firstQuestion (setPending rest w))
    | None => None
    end
  | FeedbackResolved resp =>
    match takeFirst isAwaitFeedback (pending w) with
    | Some (AwaitFeedback r transcript, rest) =>
      Some (handleAnswerSubmission_resume r transcript resp
              (setPending rest w))
    | _ => None
    end
  | SummaryResolved finalSummary =>
    match takeFirst isAwaitSummary (pending w) with
    | Some (_, rest) =>
      Some (handleEndInterview_resume finalSummary (setPending rest w))
    | None => None
    end
  | ClickMicrophone =>
    match interviewState (cells w) with
    | LISTENING | AWAITING_ANSWER => Some (handleToggleListening (cells w) w)
    | _ => None
    end
  | ClickEndInterview =>
    match interviewState (cells w) with
    | DISPLAYING_FEEDBACK => Some (handleEndInterview (cells w) false w)
    | _ => None
    end
  | ClickNextQuestion =>
    match interviewState (cells w) with
    | DISPLAYING_FEEDBACK => Some (handleNextQuestion (cells w) w)
    | _ => None
    end
  | ClickHeaderBack => Some (navigate (js "/guide") w)
  | RecognitionResult transcript =>
    match recognitionRef w, capture w with
    | Some rec, Capturing =>
      Some (recognition_onresult rec transcript (setCapture Ending w))
    | _, _ => None
    end
  | RecognitionError =>
    match recognitionRef w, capture w with
    | Some _, Capturing => Some (recognition_onerror (setCapture Ending w))
    | _, _ => None
    end
  | RecognitionEnd =>
    match recognitionRef w, capture w with
    | Some _, (Capturing | Ending) =>
      Some (recognition_onend (setCapture Idle w))
    | _, _ => None
    end
  | SpeakTextChanged => Some (setSpeakTextId (S (speakTextId w)) w)
  end.

(** Effects run after the render that follows a handler, while the
    component is still mounted. *)
Definition commit (w : World) : World :=
  if mounted w then speakEffect w else w.

(** One event. Nothing reaches an unmounted component. *)
Definition step (w : World) (e : Event) : option World :=
  if mounted w then commit <$> handle e w else None.

Fixpoint run (w : World) (es : list Event) : option World :=
  match es with
  | [] => Some w
  | e :: rest =>
    match step w e with
    | Some w' => run w' rest
    | None => None
    end
  end.

Definition initialWorld (speechRecognition : bool) : World :=
  mkWorld initialCells None Idle [] [] None 0 speechRecognition true.

(** The first render and its effects: [startInterview] is called, and the
    speak effect sees an empty question. *)
Definition mount (speechRecognition : bool) : World :=
  speakEffect (startInterview (speakEffect (initialWorld speechRecognition))).

Definition reachable (w : World) : Prop :=
  exists speechRecognition es, run (mount speechRecognition) es = Some w.

(** The texts handed to [speakText], in order. *)
Definition spoken (l : list Effect) : list jsstring :=
  omap (fun e => match e with SpeakText t => Some t | _ => None end) l.

(** The arguments of the calls to [getInterviewFeedbackAndNextQuestion]. *)
Definition feedbackCalls (l : list Effect) : list (jsstring * jsstring) :=
  omap (fun e => match e with
                 | CallGetInterviewFeedbackAndNextQuestion q t => Some (q, t)
                 | _ => None
                 end) l.

(** The arguments of the calls to [generateInterviewSummary]. *)
Definition summaryCalls (l : list Effect) : list (list InterviewTurn) :=
  omap (fun e => match e with
                 | CallGenerateInterviewSummary h => Some h
                 | _ => None
                 end) l.

(** *** Session invariant

    What holds of the pending awaits, the capture session and the staged
    question and summary in each phase of a session that was mounted and
    driven by events. *)
Definition onlyAwait (f : Pending -> bool) (l : list Pending) : Prop :=
  exists p, l = [p] /\ f p = true.

Definition phaseInvariant (w : World) : Prop :=
  match interviewState (cells w) with
  | STARTING => False
  | PROCESSING =>
    stagedNextQuestion (cells w) = None /\ summary (cells w) = []
    /\ capture w <> Capturing
    /\ (onlyAwait isAwaitSendMessageToAI (pending w)
        \/ onlyAwait isAwaitFeedback (pending w))
  | AWAITING_ANSWER =>
    stagedNextQuestion (cells w) = None /\ summary (cells w) = []
    /\ capture w <> Capturing /\ pending w = []
  | LISTENING =>
    stagedNextQuestion (cells w) = None /\ summary (cells w) = []
    /\ pending w = []
  | DISPLAYING_FEEDBACK =>
    summary (cells w) = [] /\ capture w <> Capturing /\ pending w = []
  | PROCESSING_SUMMARY =>
    summary (cells w) = [] /\ capture w <> Capturing
    /\ onlyAwait isAwaitSummary (pending w)
  | COMPLETED => capture w <> Capturing /\ pending w = []
  end.

Definition sessionInvariant (w : World) : Prop :=
  speakDeps w = Some (depsOf w) /\ phaseInvariant w.

End Interview.

Import Settings Interview.

(** ** Concrete collaborators, voices and sessions *)

Module Scenario.


Definition voiceAlice : Voice := mkVoice (js "urn:alice") (js "en-US") true.
Definition voiceBob : Voice := mkVoice (js "urn:bob") (js "en-GB") false.
Definition voiceChloe : Voice := mkVoice (js "urn:chloe") (js "fr-FR") false.
Definition platformVoices : list Voice := [voiceChloe; voiceBob; voiceAlice].

Definition question1 : jsstring := js "Tell me about a time you led a team.".
Definition question2 : jsstring := js "What was the outcome?".
Definition answer1 : jsstring := js "I led a project...".
Definition answer2 : jsstring := js "It shipped on time.".
Definition response1 : FeedbackResponse :=
  mkFeedbackResponse (js "Good *example*.") (Some question2).
Definition response2 : FeedbackResponse :=
  mkFeedbackResponse (js "Clear.") None.
Definition turn1 : InterviewTurn :=
  Turn.mk question1 answer1 (js "Good example.").

(** The opening question arrives and is spoken. *)
Definition opening : list Event :=
  [SendMessageToAIResolved (js "Tell me about a time you led a team.*")].

(** The user answers the first question by voice and gets feedback. *)
Definition firstTurn : list Event :=
  opening ++
  [ClickMicrophone; RecognitionResult answer1; RecognitionEnd;
   FeedbackResolved response1].

(** The user advances and answers the second question by voice. *)
Definition secondSubmission : list Event :=
  firstTurn ++
  [ClickNextQuestion; ClickMicrophone; RecognitionResult answer2;
   RecognitionEnd].

(** The user ends the interview while a next question is staged. *)
Definition endedEarly : list Event :=
  firstTurn ++ [ClickEndInterview].

(** The same, with the summary delivered. *)
Definition endedEarlyCompleted : list Event :=
  endedEarly ++ [SummaryResolved (js "**Solid** answers.")].

(** The user taps the microphone and the capture ends with no result. *)
Definition silentCapture : list Event :=
  opening ++ [ClickMicrophone; RecognitionEnd].

(** The evaluator proposes a next question made of one asterisk. *)
Definition asteriskQuestion : list Event :=
  opening ++
  [ClickMicrophone; RecognitionResult answer1; RecognitionEnd;
   FeedbackResolved (mkFeedbackResponse (js "Fine.") (Some (js "*")))].

(** The second answer is evaluated. *)
Definition secondTurn : list Event :=
  secondSubmission ++ [FeedbackResolved response2].

(** The world a session is in after a list of events (the mounted world
    if the events cannot happen in that order). *)
Definition worldAfter (es : list Event) : World :=
  match run (mount true) es with
  | Some w => w
  | None => mount true
  end.

(** Worlds built by hand for the handler-level statements. *)
Definition listeningWorld : World :=
  mkWorld (mkCells LISTENING question1 None [] [] [] [])
    (Some (mkRecognition initialCells)) Capturing [] [] None 0 true true.
Definition processingWorld : World :=
  mkWorld (mkCells PROCESSING question1 None answer1 [] [] [])
    (Some (mkRecognition initialCells)) Ending [] [] None 0 true true.
Definition abortWorld : World :=
  mkWorld (mkCells DISPLAYING_FEEDBACK question1 None [] [] [] [])
    None Idle [] [] None 0 true true.
Definition feedbackWorld : World :=
  mkWorld (mkCells DISPLAYING_FEEDBACK question1 (Some question2) answer1
             (js "Good example.") [turn1] [])
    None Idle [] [] None 0 true true.

End Scenario.

Import Scenario.

(** ** Speech output *)

Module SpeechOutput.

(** What [speakText] asks of [window.speechSynthesis]. An utterance with no
    voice set is spoken with the platform's own default voice. *)
Inductive SynthesisCall :=
| SynthesisCancel
| SynthesisSpeak (text : jsstring) (voice : option Voice).

(** [availableVoices.find(v => v.voiceURI === selectedVoiceURI)] *)
Definition findVoice (uri : jsstring) (voices : list Voice) : option Voice :=
  List.find (fun v => bool_decide (voiceURI v = uri)) voices.

(** The voice put on the utterance. *)
Definition utteranceVoice (st : VoiceState) : option Voice :=
  match selectedVoiceURI st with
  | Some uri => if truthy uri then findVoice uri (availableVoices st) else None
  | None => None
  end.

(** [speakText]; [hasSpeechSynthesis] is ['speechSynthesis' in window]. The
    callback is rebuilt whenever the voices or the selection change, so it
    always sees the state [st] of the provider. *)
Definition speakText (hasSpeechSynthesis : bool) (st : VoiceState)
    (text : jsstring) : list SynthesisCall :=
  if hasSpeechSynthesis && truthy text
  then [SynthesisCancel; SynthesisSpeak text (utteranceVoice st)]
  else [].

End SpeechOutput.

Import SpeechOutput.


(** ** What a session shows of its past *)

Module Observations.

(** The arguments of the evaluator calls that have not been answered. *)
Definition pendingSubmissions (l : list Pending)
  : list (jsstring * jsstring) :=
  omap (fun p => match p with
                 | AwaitFeedback r transcript =>
                   Some (currentQuestion r, transcript)
                 | _ => None
                 end) l.

(** The question and the answer of each recorded turn. *)
Definition recorded (h : list InterviewTurn) : list (jsstring * jsstring) :=
  List.map (fun t => (Turn.question t, Turn.answer t)) h.

(** The prompts sent to [sendMessageToAI]. *)
Definition promptCalls (l : list Effect) : list jsstring :=
  omap (fun e => match e with CallSendMessageToAI p => Some p | _ => None end)
    l.

(** How often the user was alerted. *)
Definition alerts (l : list Effect) : nat :=
  length (List.filter (fun e => match e with Alert => true | _ => false end) l).

(** A text with no asterisk in it. *)
Definition asteriskFree (s : jsstring) : Prop := ~ In 0x2A%N s.

(** The texts the screen shows that came from a collaborator. *)
Definition shownTextsClean (c : Cells) : Prop :=
  asteriskFree (currentQuestion c)
  /\ asteriskFree (feedback c)
  /\ asteriskFree (summary c)
  /\ (forall q, stagedNextQuestion c = Some q -> asteriskFree q)
  /\ (forall t, In t (interviewHistory c) -> asteriskFree (Turn.feedback t)).

(** The summarizer was called once, with the history the session holds,
    in the two last phases, and not at all before. *)
Definition summaryMatchesHistory (w : World) : Prop :=
  match interviewState (cells w) with
  | PROCESSING_SUMMARY | COMPLETED =>
    summaryCalls (effects w) = [interviewHistory (cells w)]
  | _ => summaryCalls (effects w) = []
  end.

(** A session on a platform without speech recognition: before the opening
    question has arrived, and after. *)
Definition stuckAtOpening (w : World) : Prop :=
  hasSpeechRecognition w = false
  /\ recognitionRef w = None
  /\ capture w = Idle
  /\ interviewHistory (cells w) = []
  /\ feedbackCalls (effects w) = []
  /\ summaryCalls (effects w) = []
  /\ ((interviewState (cells w) = PROCESSING
       /\ pending w = [AwaitSendMessageToAI])
      \/ (interviewState (cells w) = AWAITING_ANSWER /\ pending w = [])).

(** Every turn and every submission in flight carries the question of the
    render that built the recognition object. *)
Definition questionOfFirstTap (w : World) : Prop :=
  match recognitionRef w with
  | Some rec =>
    (forall t, In t (interviewHistory (cells w)) ->
       Turn.question t = currentQuestion (builtIn rec))
    /\ (forall r transcript, In (AwaitFeedback r transcript) (pending w) ->
          r = builtIn rec)
  | None =>
    interviewHistory (cells w) = []
    /\ (forall r transcript, ~ In (AwaitFeedback r transcript) (pending w))
  end.

End Observations.

Import Observations.

(** ** The translated-text component [T] *)

Module TranslatedText.

(** A call of [translate] whose promise has not resolved: the effect run
    that made it, and what it asked for. *)
Record Request := mkRequest {
  requestRun : nat;
  requestText : jsstring;
  requestLanguage : Language
}.

(** One mounted [T]: its [translatedText] cell, its current [children] and
    the provider's [language], the number of the latest run of its effect,
    the promises still open and every request made so far. Each run of the
    effect has its own [isMounted] flag, cleared by the cleanup that
    precedes the next run and by unmounting; so the flag of a run is set
    exactly while the run is the latest one and the component is alive. *)
Record TState := mkTState {
  translatedText : jsstring;
  children : jsstring;
  language : Language;
  latestRun : nat;
  openRequests : list Request;
  requested : list (jsstring * Language);
  alive : bool
}.

Definition setTranslatedText (v : jsstring) (st : TState) : TState :=
  mkTState v (children st) (language st) (latestRun st) (openRequests st)
    (requested st) (alive st).

(** One run of the effect, for the [children] and [language] in [st]. *)
Definition runEffect (st : TState) : TState :=
  let st1 := mkTState (translatedText st) (children st) (language st)
               (S (latestRun st)) (openRequests st) (requested st)
               (alive st) in
  if bool_decide (language st = English) || negb (truthy (children st))
  then setTranslatedText (children st) st1
  else
    mkTState (translatedText st1) (children st1) (language st1)
      (latestRun st1)
      (openRequests st1
       ++ [mkRequest (latestRun st1) (children st1) (language st1)])
      (requested st1 ++ [(children st1, language st1)])
      (alive st1).

(** Mounting: [useState(children)], then the first run of the effect. *)
Definition mountT (text : jsstring) (lang : Language) : TState :=
  runEffect (mkTState text text lang 0 [] [] true).

Inductive TEvent :=
| Rerender (text : jsstring) (lang : Language)
| Resolve (i : nat) (translation : jsstring)
| Unmount.

(** A render with new props or a new language runs the effect again when
    one of them differs ([translate] changes exactly with [language]); a
    promise that resolves sets the text only if the flag of its run is
    still set. *)
Definition stepT (st : TState) (e : TEvent) : option TState :=
  match e with
  | Rerender text lang =>
    if alive st then
      if bool_decide (text = children st /\ lang = language st) then Some st
      else Some (runEffect
                   (mkTState (translatedText st) text lang (latestRun st)
                      (openRequests st) (requested st) (alive st)))
    else None
  | Resolve i translation =>
    match openRequests st !! i with
    | Some rq =>
      let st1 := mkTState (translatedText st) (children st) (language st)
                   (latestRun st) (delete i (openRequests st))
                   (requested st) (alive st) in
      Some (if alive st && (requestRun rq =? latestRun st)
            then setTranslatedText translation st1
            else st1)
    | None => None
    end
  | Unmount =>
    if alive st
    then Some (mkTState (translatedText st) (children st) (language st)
                 (latestRun st) (openRequests st) (requested st) false)
    else None
  end.

Fixpoint runT (st : TState) (es : list TEvent) : option TState :=
  match es with
  | [] => Some st
  | e :: rest =>
    match stepT st e with
    | Some st' => runT st' rest
    | None => None
    end
  end.

(** What the open requests of the latest run look like. *)
Definition requestsInvariant (st : TState) : Prop :=
  (forall rq, In rq (openRequests st) -> requestRun rq <= latestRun st)
  /\ (forall rq, In rq (openRequests st) ->
        requestRun rq = latestRun st ->
        requestText rq = children st /\ requestLanguage rq = language st
        /\ language st <> English /\ children st <> [])
  /\ (language st = English \/ children st = [] ->
      translatedText st = children st)
  /\ (forall t l, In (t, l) (requested st) -> t <> [] /\ l <> English).

End TranslatedText.

Import TranslatedText.

(** ** The guide screen *)

Module Guide.

(** [MessageAuthor], [Message], [SkillGap], [LearningResource] and
    [SkillAnalysis] of [types.ts]. *)
Inductive MessageAuthor := USER | AI.

#[global] Instance MessageAuthor_eq_dec : EqDecision MessageAuthor.
Proof. solve_decision. Defined.

Record Message := mkMessage {
  author : MessageAuthor;
  text : jsstring;
  timestamp : jsstring
}.

Record SkillGap := mkSkillGap { skill : jsstring; reason : jsstring }.

Record LearningResource := mkLearningResource {
  resource : jsstring;
  description : jsstring;
  resourceType : jsstring
}.

Record SkillAnalysis := mkSkillAnalysis {
  skillGaps : list SkillGap;
  learningPlan : list LearningResource
}.

(** [hay.includes(needle)] *)
Fixpoint includes (needle hay : jsstring) : bool :=
  startsWith needle hay ||
  match hay with
  | [] => false
  | _ :: rest => includes needle rest
  end.

(** The [useState] cells of [GuideScreen]. *)
Record GuideCells := mkGuideCells {
  messages : list Message;
  input : jsstring;
  isLoading : bool
}.

Inductive GuideEffect :=
| CallGenerateSkillAnalysis (currentRole targetRole : jsstring)
| CallChat (messageText : jsstring)
| GuideSpeak (spokenText : jsstring)
| SetTimeoutNavigate (path : jsstring) (milliseconds : nat).

Inductive GuideAwait := AwaitSkillAnalysis | AwaitChat.

#[global] Instance GuideAwait_eq_dec : EqDecision GuideAwait.
Proof. solve_decision. Defined.

(** The screen, the [skillAnalysis] cell of the user-data provider it
    writes to, the awaits that have not resumed and the calls made. *)
Record GuideWorld := mkGuideWorld {
  guideCells : GuideCells;
  skillAnalysis : option SkillAnalysis;
  awaiting : list GuideAwait;
  guideEffects : list GuideEffect
}.

Definition onGuideCells (f : GuideCells -> GuideCells) (w : GuideWorld)
  : GuideWorld :=
  mkGuideWorld (f (guideCells w)) (skillAnalysis w) (awaiting w)
    (guideEffects w).

Definition setMessages (f : list Message -> list Message)
  : GuideWorld -> GuideWorld :=
  onGuideCells (fun c => mkGuideCells (f (messages c)) (input c) (isLoading c)).

Definition setInput (v : jsstring) : GuideWorld -> GuideWorld :=
  onGuideCells (fun c => mkGuideCells (messages c) v (isLoading c)).

Definition setIsLoading (v : bool) : GuideWorld -> GuideWorld :=
  onGuideCells (fun c => mkGuideCells (messages c) (input c) v).

Definition setSkillAnalysis (v : SkillAnalysis) (w : GuideWorld)
  : GuideWorld :=
  mkGuideWorld (guideCells w) (Some v) (awaiting w) (guideEffects w).

Definition emitGuide (e : GuideEffect) (w : GuideWorld) : GuideWorld :=
  mkGuideWorld (guideCells w) (skillAnalysis w) (awaiting w)
    (guideEffects w ++ [e]).

Definition awaitGuide (a : GuideAwait) (w : GuideWorld) : GuideWorld :=
  mkGuideWorld (guideCells w) (skillAnalysis w) (awaiting w ++ [a])
    (guideEffects w).

Definition setAwaiting (l : list GuideAwait) (w : GuideWorld) : GuideWorld :=
  mkGuideWorld (guideCells w) (skillAnalysis w) l (guideEffects w).

Definition justNow : jsstring := js "Just now".

Definition analysisReply : jsstring :=
  js ("I've analyzed the skill gap for a Senior Full-Stack Engineer. "
      ++ "I've added the details to your Goals page. What's next?").

Definition interviewReply : jsstring :=
  js "Great! Let's start a mock interview session.".

Section Handlers.

(** [String.prototype.toLowerCase], left open: the statements below hold
    whatever it maps a text to. *)
Variable toLowerCase : jsstring -> jsstring.

(** [handleSend] up to its first [await]; [r] is the render it closes
    over. *)
Definition handleSend (r : GuideCells) (messageText : jsstring)
    (w : GuideWorld) : GuideWorld :=
  if negb (truthy (trim messageText)) || isLoading r then w
  else
    let userMessage := mkMessage USER messageText justNow in
    let w1 := setIsLoading true
                (setInput []
                   (setMessages (fun prev => prev ++ [userMessage]) w)) in
    if includes (js "analyze my skills") (toLowerCase messageText) then
      awaitGuide AwaitSkillAnalysis
        (emitGuide (CallGenerateSkillAnalysis
                      (js "Junior Frontend Developer")
                      (js "Senior Full-Stack Engineer")) w1)
    else if includes (js "practice for an interview")
              (toLowerCase messageText) then
      let aiMessage := mkMessage AI interviewReply justNow in
      setIsLoading false
        (emitGuide (SetTimeoutNavigate (js "/interview-session") 1000)
           (emitGuide (GuideSpeak (text aiMessage))
              (setMessages (fun prev => prev ++ [aiMessage]) w1)))
    else
      awaitGuide AwaitChat (emitGuide (CallChat messageText) w1).

(** After [generateSkillAnalysis] resolved. *)
Definition analysis_resolved (result : SkillAnalysis) (w : GuideWorld)
  : GuideWorld :=
  let aiMessage := mkMessage AI analysisReply justNow in
  setIsLoading false
    (emitGuide (GuideSpeak (text aiMessage))
       (setMessages (fun prev => prev ++ [aiMessage])
          (setSkillAnalysis result w))).

(** After [generateSkillAnalysis] rejected: the [catch] branch. *)
Definition analysis_rejected (errorMessage : jsstring) (w : GuideWorld)
  : GuideWorld :=
  let aiMessage := mkMessage AI errorMessage justNow in
  setIsLoading false (setMessages (fun prev => prev ++ [aiMessage]) w).

(** After [sendMessageToAI] resolved. *)
Definition chat_resolved (aiResponseText : jsstring) (w : GuideWorld)
  : GuideWorld :=
  let aiMessage := mkMessage AI aiResponseText justNow in
  setIsLoading false
    (emitGuide (GuideSpeak aiResponseText)
       (setMessages (fun prev => prev ++ [aiMessage]) w)).

(** After [sendMessageToAI] rejected: no [catch] surrounds the call, so
    the rest of [handleSend] is skipped. *)
Definition chat_rejected (w : GuideWorld) : GuideWorld := w.

Inductive GuideEvent :=
| Send (messageText : jsstring)
| TypeInput (value : jsstring)
| SkillAnalysisResolved (result : SkillAnalysis)
| SkillAnalysisRejected (errorMessage : jsstring)
| ChatResolved (aiResponseText : jsstring)
| ChatRejected.

Fixpoint takeAwait (a : GuideAwait) (l : list GuideAwait)
  : option (list GuideAwait) :=
  match l with
  | [] => None
  | b :: rest =>
    if decide (a = b) then Some rest
    else (fun rest' => b :: rest') <$> takeAwait a rest
  end.

(** One event. [Send] stands for the send button, the Enter key and the
    quick-action buttons, which all call [handleSend] of the render on
    screen; the input field is disabled while loading. *)
Definition guideStep (w : GuideWorld) (e : GuideEvent) : option GuideWorld :=
  match e with
  | Send messageText => Some (handleSend (guideCells w) messageText w)
  | TypeInput value =>
    if isLoading (guideCells w) then None else Some (setInput value w)
  | SkillAnalysisResolved result =>
    (fun rest => analysis_resolved result (setAwaiting rest w))
      <$> takeAwait AwaitSkillAnalysis (awaiting w)
  | SkillAnalysisRejected errorMessage =>
    (fun rest => analysis_rejected errorMessage (setAwaiting rest w))
      <$> takeAwait AwaitSkillAnalysis (awaiting w)
  | ChatResolved aiResponseText =>
    (fun rest => chat_resolved aiResponseText (setAwaiting rest w))
      <$> takeAwait AwaitChat (awaiting w)
  | ChatRejected =>
    (fun rest => chat_rejected (setAwaiting rest w))
      <$> takeAwait AwaitChat (awaiting w)
  end.

Fixpoint guideRun (w : GuideWorld) (es : list GuideEvent)
  : option GuideWorld :=
  match es with
  | [] => Some w
  | e :: rest =>
    match guideStep w e with
    | Some w' => guideRun w' rest
    | None => None
    end
  end.

End Handlers.

(** The first render: [useState([getInitialMessage()])]. *)
Definition mountGuide (initialMessage : Message) : GuideWorld :=
  mkGuideWorld (mkGuideCells [initialMessage] [] false) None [] [].

Definition nextAfter (a : MessageAuthor) : MessageAuthor :=
  match a with USER => AI | AI => USER end.

(** A conversation after the greeting: the user and the guide in turn,
    the user first. *)
Fixpoint inTurn (next : MessageAuthor) (l : list Message) : Prop :=
  match l with
  | [] => True
  | m :: rest => author m = next /\ inTurn (nextAfter next) rest
  end.

(** Who is expected to speak after the conversation [l]. *)
Definition nextSpeaker (l : list Message) : MessageAuthor :=
  if Nat.even (length l) then USER else AI.

Definition spokenGuide (l : list GuideEffect) : list jsstring :=
  omap (fun e => match e with GuideSpeak t => Some t | _ => None end) l.

Definition collaboratorCalls (l : list GuideEffect) : nat :=
  length (List.filter (fun e => match e with
                                | CallGenerateSkillAnalysis _ _ => true
                                | CallChat _ => true
                                | _ => false
                                end) l).

Definition guideInvariant (initialMessage : Message) (w : GuideWorld)
  : Prop :=
  exists conversation,
    messages (guideCells w) = initialMessage :: conversation
    /\ inTurn USER conversation
    /\ (isLoading (guideCells w) = true <-> nextSpeaker conversation = AI)
    /\ length (awaiting w) <= 1
    /\ (awaiting w <> [] -> isLoading (guideCells w) = true)
    /\ (forall t, In t (spokenGuide (guideEffects w)) ->
          exists m, In m conversation /\ author m = AI /\ text m = t).

End Guide.

Import Guide.

(** ** More concrete states and traces *)

Module MoreScenarios.

(** The provider after mounting on the platform of [Scenario]. *)
Definition mountedVoices : VoiceState := mountVoices platformVoices.


(** [toLowerCase] on the letters A to Z, other code units kept. *)
Definition asciiLower (s : jsstring) : jsstring :=
  List.map (fun c => if ((0x41 <=? c) && (c <=? 0x5A))%N then (c + 0x20)%N
                     else c) s.

Definition greeting : Message :=
  mkMessage AI (js "Hi! I'm your career guide.") (js "Just now").

(** The user asks a question and the chat collaborator answers. *)
Definition askedAndAnswered : list GuideEvent :=
  [TypeInput (js "How can I improve my resume?");
   Send (js "How can I improve my resume?");
   ChatResolved (js "Start with a summary.")].

(** The user asks a question and the chat collaborator rejects. *)
Definition askedAndFailed : list GuideEvent :=
  [Send (js "How can I improve my resume?")].

Definition guideAfter (es : list GuideEvent) : GuideWorld :=
  default (mountGuide greeting)
    (guideRun asciiLower (mountGuide greeting) es).

(** A label shown in Tamil, then changed while its translation is still
    on the way, then the language set back to English. *)
Definition goalsLabel : list TEvent :=
  [Rerender (js "Goals") Tamil; Rerender (js "Goals") English].

Definition labelAfter (es : list TEvent) : TState :=
  default (mountT (js "Guide") Tamil) (runT (mountT (js "Guide") Tamil) es).

End MoreScenarios.

Import MoreScenarios.

(** * Properties *)

(** ** Strings *)

Section StringFacts.

Lemma trimStart_nil_iff (s : jsstring) :
  trimStart s = [] <-> forallb is_whitespace s = true.
Proof.
  induction s as [|c s IH]; simpl; [tauto|].
  destruct (is_whitespace c) eqn:Hc; simpl; [exact IH|].
  split; discriminate.
Qed.

Lemma trimStart_fixed (s : jsstring) :
  forallb is_whitespace (trimStart s) = true -> trimStart s = [].
Proof.
  induction s as [|c s IH]; simpl; [reflexivity|].
  destruct (is_whitespace c) eqn:Hc; [exact IH|].
  simpl. rewrite Hc. discriminate.
Qed.

Lemma forallb_rev (f : N -> bool) (s : jsstring) :
  forallb f (rev s) = forallb f s.
Proof.
  induction s as [|c s IH]; simpl; [reflexivity|].
  rewrite forallb_app, IH. simpl. rewrite andb_true_r. apply andb_comm.
Qed.

(** [!s.trim()] holds exactly for the texts made of whitespace only. *)
Lemma trim_nil_iff (s : jsstring) :
  trim s = [] <-> forallb is_whitespace s = true.
Proof.
  unfold trim, trimEnd. split.
  - intros H. apply (f_equal (@rev N)) in H. rewrite rev_involutive in H.
    simpl in H. apply trimStart_nil_iff in H. rewrite forallb_rev in H.
    apply trimStart_nil_iff. now apply trimStart_fixed.
  - intros H. apply trimStart_nil_iff in H. rewrite H. reflexivity.
Qed.

Lemma truthy_trim (s : jsstring) :
  truthy (trim s) = negb (forallb is_whitespace s).
Proof.
  destruct (forallb is_whitespace s) eqn:H.
  - apply trim_nil_iff in H. now rewrite H.
  - destruct (trim s) eqn:Ht; [|reflexivity].
    apply trim_nil_iff in Ht. congruence.
Qed.

Lemma replace_asterisks_clean (s : jsstring) :
  ~ In 0x2A%N (replace_asterisks s).
Proof.
  unfold replace_asterisks. rewrite filter_In. intros [_ H].
  now rewrite N.eqb_refl in H.
Qed.

End StringFacts.

(** ** Translation cache *)

Section TranslationCache.

Variable translateText : jsstring -> Language -> jsstring.

(** C7. With the base language selected, [translate] returns its text
    as it is and leaves the cache and the record of collaborator calls
    untouched: the collaborator is not called. *)
Theorem C7_translate_base_language (text : jsstring) (st : TranslateState) :
  translate translateText English text st = (text, st)
  /\ translateTextCalls (snd (translate translateText English text st))
     = translateTextCalls st.
Proof. split; reflexivity. Qed.



(** Entries for other texts are not disturbed by a miss. *)
Lemma translate_other_text (language : Language) (text other : jsstring)
    (st : TranslateState) :
  other <> text ->
  cached (translationCache (snd (translate translateText language text st)))
    other language
  = cached (translationCache st) other language.
Proof.
  intros Hne. unfold translate.
  destruct language; [reflexivity|].
  destruct (cached (translationCache st) text Tamil) as [v|]; simpl.
  - destruct (truthy v); [reflexivity|]. simpl. unfold cached.
    now rewrite lookup_insert_ne.
  - unfold cached. now rewrite lookup_insert_ne.
Qed.


End TranslationCache.



(** ** Voice registry *)

Section VoiceRegistry.

(** The policy of [defaultChoice]: the first voice marked default if there
    is one, else the first voice. *)
Lemma defaultChoice_marked (voices : list Voice) (d : Voice) :
  List.find isDefault voices = Some d ->
  defaultChoice voices = Some (voiceURI d)
  /\ In d voices /\ isDefault d = true.
Proof.
  intros H. unfold defaultChoice. rewrite H. split; [reflexivity|].
  now apply find_some in H.
Qed.

Lemma defaultChoice_first (v0 : Voice) (rest : list Voice) :
  (forall v, In v (v0 :: rest) -> isDefault v = false) ->
  defaultChoice (v0 :: rest) = Some (voiceURI v0).
Proof.
  intros H. unfold defaultChoice.
  destruct (List.find isDefault (v0 :: rest)) as [d|] eqn:Hf; [|reflexivity].
  apply find_some in Hf. destruct Hf as [Hin Hd].
  rewrite (H d Hin) in Hd. discriminate.
Qed.

Lemma loadVoices_unfold (getVoices : list Voice) (st : VoiceState) :
  onvoiceschanged getVoices st
  = let st1 := setAvailableVoices (englishVoices getVoices) st in
    if 0 <? length (englishVoices getVoices)
    then match defaultChoice (englishVoices getVoices) with
         | Some uri => setSelectedVoiceURI uri st1
         | None => st1
         end
    else st1.
Proof. reflexivity. Qed.

(** With no voice selected, a refresh that finds an English voice selects
    by the default policy. *)
Lemma refresh_selects_default (getVoices : list Voice) (st : VoiceState) :
  englishVoices getVoices <> [] ->
  selectedVoiceURI st = None ->
  selectedVoiceURI (onvoiceschanged getVoices st)
  = defaultChoice (englishVoices getVoices)
  /\ availableVoices (onvoiceschanged getVoices st) = englishVoices getVoices.
Proof.
  intros Hne _. rewrite loadVoices_unfold.
  destruct (englishVoices getVoices) as [|v0 rest] eqn:Hv; [congruence|].
  cbn [length Nat.ltb Nat.leb].
  destruct (defaultChoice (v0 :: rest)) as [uri|] eqn:Hd.
  - split; reflexivity.
  - unfold defaultChoice in Hd.
    destruct (List.find isDefault (v0 :: rest)); discriminate.
Qed.

(** The installed [onvoiceschanged] never looks at the selection in the
    state it updates: whatever is selected, a refresh that finds an
    English voice selects by the default policy again. *)
Lemma refresh_ignores_selection (getVoices : list Voice) (st : VoiceState) :
  englishVoices getVoices <> [] ->
  selectedVoiceURI (onvoiceschanged getVoices st)
  = defaultChoice (englishVoices getVoices).
Proof.
  intros Hne. rewrite loadVoices_unfold.
  destruct (englishVoices getVoices) as [|v0 rest] eqn:Hv; [congruence|].
  cbn [length Nat.ltb Nat.leb].
  destruct (defaultChoice (v0 :: rest)) as [uri|] eqn:Hd; [reflexivity|].
  unfold defaultChoice in Hd.
  destruct (List.find isDefault (v0 :: rest)); discriminate.
Qed.

End VoiceRegistry.

(** C9. The code at a failing input. The provider mounts with three
    platform voices and selects the marked default among the English ones;
    the user then selects another voice; the platform signals a voice-list
    change with the same list, and the user's selection is replaced by the
    default again. *)
Theorem C9_refresh_overwrites_selection :
  let mounted := mountVoices platformVoices in
  let chosen := setSelectedVoiceURI (voiceURI voiceBob) mounted in
  let refreshed := onvoiceschanged platformVoices chosen in
  availableVoices mounted = [voiceBob; voiceAlice]
  /\ selectedVoiceURI mounted = Some (voiceURI voiceAlice)
  /\ selectedVoiceURI chosen = Some (voiceURI voiceBob)
  /\ selectedVoiceURI refreshed = Some (voiceURI voiceAlice)
  /\ selectedVoiceURI refreshed <> selectedVoiceURI chosen.
Proof.
  vm_compute. repeat split. discriminate.
Qed.

(** ** Interview session: the handlers *)

Section Handlers.

(** What a non-blank submission does before its [await]: the phase is
    [PROCESSING] and the evaluator is called once, with the question of
    the render the handler closes over. *)
Lemma submission_calls_evaluator (r : Cells) (transcript : jsstring)
    (w : World) :
  forallb is_whitespace transcript = false ->
  let w' := handleAnswerSubmission r transcript w in
  interviewState (cells w') = PROCESSING
  /\ effects w'
     = effects w ++
       [CallGetInterviewFeedbackAndNextQuestion (currentQuestion r) transcript]
  /\ pending w' = pending w ++ [AwaitFeedback r transcript]
  /\ interviewHistory (cells w') = interviewHistory (cells w).
Proof.
  intros Hb. unfold handleAnswerSubmission.
  rewrite truthy_trim, Hb. simpl. repeat split.
Qed.

(** What the continuation of a submission does: one turn is appended at
    the end of the history, with the asterisks of the feedback removed,
    and the phase is [DISPLAYING_FEEDBACK]. *)
Lemma submission_appends_one_turn (r : Cells) (transcript : jsstring)
    (resp : FeedbackResponse) (w : World) :
  let w' := handleAnswerSubmission_resume r transcript resp w in
  interviewHistory (cells w')
  = interviewHistory (cells w) ++
    [Turn.mk (currentQuestion r) transcript
       (replace_asterisks (feedbackText resp))]
  /\ length (interviewHistory (cells w'))
     = S (length (interviewHistory (cells w)))
  /\ feedback (cells w') = replace_asterisks (feedbackText resp)
  /\ interviewState (cells w') = DISPLAYING_FEEDBACK
  /\ effects w' = effects w.
Proof.
  simpl. repeat split. rewrite length_app. simpl. lia.
Qed.

(** The staged question after a submission: the next question without
    its asterisks when one was given and was not the empty text. *)
Lemma submission_stages_next (r : Cells) (transcript : jsstring)
    (resp : FeedbackResponse) (w : World) :
  let w' := handleAnswerSubmission_resume r transcript resp w in
  (forall q, nextQuestion resp = Some q -> q <> [] ->
     stagedNextQuestion (cells w') = Some (replace_asterisks q))
  /\ (nextQuestion resp = None \/ nextQuestion resp = Some [] ->
      stagedNextQuestion (cells w') = None).
Proof.
  simpl. split.
  - intros q Hq Hne. rewrite Hq. destruct q; [congruence|reflexivity].
  - intros [H|H]; rewrite H; reflexivity.
Qed.

(** C2. A transcript made of whitespace only (the empty one included)
    sends the machine to [AWAITING_ANSWER]; no call leaves the component,
    so the evaluator is not called, nothing is awaited, and the history is
    the one before. *)
Theorem C2_blank_transcript (r : Cells) (transcript : jsstring) (w : World) :
  forallb is_whitespace transcript = true ->
  let w' := handleAnswerSubmission r transcript w in
  interviewState (cells w') = AWAITING_ANSWER
  /\ effects w' = effects w
  /\ feedbackCalls (effects w') = feedbackCalls (effects w)
  /\ pending w' = pending w
  /\ interviewHistory (cells w') = interviewHistory (cells w).
Proof.
  intros Hb. unfold handleAnswerSubmission.
  rewrite truthy_trim, Hb. simpl. repeat split.
Qed.

(** Outside [LISTENING] the end callback changes nothing. *)
Lemma onend_stale (w : World) :
  interviewState (cells w) <> LISTENING -> recognition_onend w = w.
Proof.
  intros H. unfold recognition_onend. rewrite decide_False by assumption.
  destruct w as [[] ? ? ? ? ? ? ? ?]. reflexivity.
Qed.

(** C10. The end callback of the recognizer moves a [LISTENING] machine
    to [AWAITING_ANSWER]; in every other phase it changes nothing at
    all. *)
Theorem C10_capture_end (w : World) :
  (interviewState (cells w) = LISTENING ->
   interviewState (cells (recognition_onend w)) = AWAITING_ANSWER)
  /\ (interviewState (cells w) <> LISTENING -> recognition_onend w = w).
Proof.
  unfold recognition_onend. split; intros H.
  - rewrite decide_True by assumption. reflexivity.
  - rewrite decide_False by assumption.
    destruct w as [[] ? ? ? ? ? ? ? ?]. reflexivity.
Qed.

(** What [handleEndInterview] does when it does not leave the screen. *)
Lemma end_interview_summarizes (r : Cells) (isNaturalEnd : bool)
    (w : World) :
  interviewHistory r <> [] \/ isNaturalEnd = true ->
  let w' := handleEndInterview r isNaturalEnd w in
  interviewState (cells w') = PROCESSING_SUMMARY
  /\ effects w'
     = effects w ++ [CallGenerateInterviewSummary (interviewHistory r)]
  /\ pending w' = pending w ++ [AwaitSummary]
  /\ mounted w' = mounted w.
Proof.
  intros H. unfold handleEndInterview.
  assert (Hc : (length (interviewHistory r) =? 0) && negb isNaturalEnd = false).
  { destruct H as [H|H].
    - destruct (interviewHistory r); [congruence|reflexivity].
    - rewrite H. apply andb_false_r. }
  rewrite Hc. simpl. repeat split.
Qed.


(** C3, amended. If the staged question is a text other than the empty
    one, advancing makes it the current question, clears the feedback, the
    transcript and the staged question, and moves to [AWAITING_ANSWER],
    with no call leaving the component. If no question is staged, or the
    staged text is empty, advancing is [handleEndInterview] with the
    natural-end flag: the summary is requested. *)
Theorem C3_advance (w : World) :
  let w' := handleNextQuestion (cells w) w in
  (forall q, stagedNextQuestion (cells w) = Some q -> q <> [] ->
     cells w'
     = mkCells AWAITING_ANSWER q None [] []
         (interviewHistory (cells w)) (summary (cells w))
     /\ effects w' = effects w
     /\ pending w' = pending w)
  /\ (stagedNextQuestion (cells w) = None
      \/ stagedNextQuestion (cells w) = Some [] ->
      w' = handleEndInterview (cells w) true w
      /\ interviewState (cells w') = PROCESSING_SUMMARY
      /\ summaryCalls (effects w')
         = summaryCalls (effects w) ++ [interviewHistory (cells w)]).
Proof.
  unfold handleNextQuestion. split.
  - intros q Hq Hne. rewrite Hq. destruct q; [congruence|]. simpl.
    repeat split.
  - intros H.
    assert (E : match stagedNextQuestion (cells w) with
                | Some q =>
                  if truthy q
                  then setInterviewState AWAITING_ANSWER
                         (setStagedNextQuestion None
                            (setUserTranscript []
                               (setFeedback [] (setCurrentQuestion q w))))
                  else handleEndInterview (cells w) true w
                | None => handleEndInterview (cells w) true w
                end = handleEndInterview (cells w) true w).
    { destruct H as [H|H]; rewrite H; reflexivity. }
    rewrite E. split; [reflexivity|].
    destruct (end_interview_summarizes (cells w) true w) as (H1 & H2 & _);
      [now right|].
    split; [exact H1|]. rewrite H2. unfold summaryCalls.
    now rewrite omap_app.
Qed.

End Handlers.

(** ** Interview session: the event loop *)

Section EventLoop.

Lemma run_app (w : World) (es1 es2 : list Event) :
  run w (es1 ++ es2)
  = match run w es1 with Some w1 => run w1 es2 | None => None end.
Proof.
  revert w. induction es1 as [|e es1 IH]; intros w; simpl; [reflexivity|].
  destruct (step w e); [apply IH|reflexivity].
Qed.

Lemma reachable_mount (speechRecognition : bool) :
  reachable (mount speechRecognition).
Proof. exists speechRecognition, []. reflexivity. Qed.

Lemma reachable_step (w w' : World) (e : Event) :
  reachable w -> step w e = Some w' -> reachable w'.
Proof.
  intros (b & es & Hr) Hs. exists b, (es ++ [e]).
  rewrite run_app, Hr. simpl. now rewrite Hs.
Qed.

(** Induction over the events that produced a reachable world. *)
Lemma reachable_ind (P : World -> Prop) :
  (forall b, P (mount b)) ->
  (forall w e w', reachable w -> P w -> step w e = Some w' -> P w') ->
  forall w, reachable w -> P w.
Proof.
  intros Hm Hs w (b & es & Hr). revert w Hr.
  induction es as [|e es IH] using rev_ind; intros w Hr.
  - injection Hr as <-. apply Hm.
  - rewrite run_app in Hr. destruct (run (mount b) es) as [w1|] eqn:H1;
      [|discriminate].
    simpl in Hr. destruct (step w1 e) as [w2|] eqn:H2; [|discriminate].
    injection Hr as <-. eapply Hs; [exists b, es; exact H1| |exact H2].
    now apply IH.
Qed.

(** The speak effect touches nothing but its own bookkeeping and the
    record of calls. *)
Lemma speakEffect_frame (w : World) :
  cells (speakEffect w) = cells w
  /\ pending (speakEffect w) = pending w
  /\ capture (speakEffect w) = capture w
  /\ recognitionRef (speakEffect w) = recognitionRef w
  /\ speakTextId (speakEffect w) = speakTextId w
  /\ mounted (speakEffect w) = mounted w
  /\ speakDeps (speakEffect w) = Some (depsOf w).
Proof.
  unfold speakEffect. destruct (decide (speakDeps w = Some (depsOf w))).
  - repeat split; auto.
  - destruct (truthy _ && bool_decide _); repeat split.
Qed.

Lemma speakEffect_spoken (w : World) :
  spoken (effects (speakEffect w))
  = spoken (effects w) ++
    (if bool_decide (speakDeps w <> Some (depsOf w))
        && truthy (currentQuestion (cells w))
        && bool_decide (interviewState (cells w) = AWAITING_ANSWER)
     then [currentQuestion (cells w)] else []).
Proof.
  unfold speakEffect. destruct (decide (speakDeps w = Some (depsOf w))).
  - rewrite (bool_decide_false (speakDeps w <> _)) by tauto. simpl.
    now rewrite app_nil_r.
  - rewrite (bool_decide_true (speakDeps w <> _)) by assumption. simpl.
    destruct (truthy _ && bool_decide _); simpl.
    + unfold spoken. now rewrite omap_app.
    + now rewrite app_nil_r.
Qed.

End EventLoop.

Section Invariant.

Lemma onlyAwait_single (f : Pending -> bool) (p : Pending) :
  f p = true -> onlyAwait f [p].
Proof. intros H. exists p. split; [reflexivity|exact H]. Qed.

Ltac break_await :=
  repeat match goal with
  | H : onlyAwait _ _ |- _ =>
    let p := fresh "p" in
    destruct H as (p & -> & H); destruct p; try discriminate H
  | H : _ \/ _ |- _ => destruct H
  | H : _ /\ _ |- _ => destruct H
  end.

Ltac break_handler :=
  repeat match goal with
  | H : context [match ?x with _ => _ end] |- _ =>
    match type of x with
    | option _ => destruct x eqn:?
    | bool => destruct x eqn:?
    | Capture => destruct x eqn:?
    | InterviewState => destruct x eqn:?
    | prod _ _ => destruct x eqn:?
    | Pending => destruct x eqn:?
    | sumbool _ _ => destruct x
    | list _ => destruct x eqn:?
    end; simpl in H; try discriminate H
  end.

Lemma handle_phaseInvariant (w w' : World) (e : Event) :
  phaseInvariant w -> handle e w = Some w' -> phaseInvariant w'.
Proof.
  destruct w as [[ph cq st ut fb h sm] rr cap pd ef sd sid hs mt].
  unfold phaseInvariant. simpl. intros Inv H.
  destruct e; destruct ph; simpl in *; try discriminate H; try contradiction;
    break_await; subst; simpl in *; try discriminate H.
  all: unfold handleToggleListening, handleNextQuestion, handleEndInterview,
    recognition_onresult, handleAnswerSubmission, navigate, teardown,
    recognition_start in H; simpl in H; rewrite ?andb_false_r in H.
  all: break_handler.
  all: try (injection H as <-; simpl; repeat split; try congruence;
            try discriminate;
            try (left; apply onlyAwait_single; reflexivity);
            try (right; apply onlyAwait_single; reflexivity);
            try (apply onlyAwait_single; reflexivity)).
  all: try congruence.
Qed.

(** Handlers never call [speakText] themselves and never touch the
    bookkeeping of the speak effect; one that unmounts the component
    leaves the state cells as they are. *)
Lemma handle_frame (w w' : World) (e : Event) :
  handle e w = Some w' ->
  spoken (effects w') = spoken (effects w)
  /\ speakDeps w' = speakDeps w
  /\ (mounted w = true -> mounted w' = false -> depsOf w' = depsOf w).
Proof.
  destruct w as [[ph cq st ut fb h sm] rr cap pd ef sd sid hs mt].
  intros H.
  destruct e; simpl in H.
  all: unfold handleToggleListening, handleNextQuestion, handleEndInterview,
    recognition_onresult, handleAnswerSubmission, navigate, teardown,
    recognition_start in H; simpl in H.
  all: break_handler.
  all: injection H as <-; unfold spoken; simpl; rewrite ?omap_app; simpl;
    rewrite ?app_nil_r; repeat split; congruence.
Qed.

Lemma mount_sessionInvariant (b : bool) : sessionInvariant (mount b).
Proof.
  split; [reflexivity|]. simpl. repeat split; try discriminate.
  left. now apply onlyAwait_single.
Qed.

Lemma step_sessionInvariant (w w' : World) (e : Event) :
  sessionInvariant w -> step w e = Some w' -> sessionInvariant w'.
Proof.
  intros [Hd Hp] Hs. unfold step in Hs.
  destruct (mounted w) eqn:Hm; [|discriminate].
  destruct (handle e w) as [w1|] eqn:Hh; [|discriminate].
  simpl in Hs. injection Hs as <-.
  pose proof (handle_phaseInvariant _ _ _ Hp Hh) as Hp1.
  destruct (handle_frame _ _ _ Hh) as (_ & Hd1 & Hu).
  unfold commit. destruct (mounted w1) eqn:Hm1.
  - destruct (speakEffect_frame w1) as (Hc & Hpd & Hcap & _ & Hid & _ & Hsd).
    split.
    + rewrite Hsd. unfold depsOf. now rewrite Hc, Hid.
    + unfold phaseInvariant in *. now rewrite Hc, Hpd, Hcap.
  - split; [|exact Hp1]. rewrite Hd1, Hd. f_equal. symmetry. now apply Hu.
Qed.

Lemma reachable_sessionInvariant (w : World) :
  reachable w -> sessionInvariant w.
Proof.
  apply reachable_ind.
  - apply mount_sessionInvariant.
  - intros w0 e w' _ Hi Hs. now apply (step_sessionInvariant w0 w' e).
Qed.

(** The recognition object is built once: no event replaces it, so its
    result callback keeps the render that built it. *)
Lemma recognition_built_once (w w' : World) (e : Event) (rec : Recognition) :
  step w e = Some w' ->
  recognitionRef w = Some rec ->
  recognitionRef w' = Some rec.
Proof.
  unfold step. destruct (mounted w); [|discriminate].
  destruct (handle e w) as [w1|] eqn:Hh; [|discriminate].
  simpl. intros H Hr. injection H as <-.
  assert (H1 : recognitionRef w1 = Some rec).
  { destruct w as [[ph cq st ut fb h sm] rr cap pd ef sd sid hs mt].
    simpl in Hr. subst rr. destruct e; simpl in Hh.
    all: unfold handleToggleListening, handleNextQuestion, handleEndInterview,
      recognition_onresult, handleAnswerSubmission, navigate, teardown,
      recognition_start in Hh; simpl in Hh.
    all: break_handler.
    all: injection Hh as <-; reflexivity. }
  unfold commit. destruct (mounted w1); [|exact H1].
  destruct (speakEffect_frame w1) as (_ & _ & _ & Hrr & _). now rewrite Hrr.
Qed.

(** A result delivered by the recognizer is submitted with the question of
    the render that built the recognition object, whatever the current
    question is. *)
Lemma result_uses_builder_question (w w' : World) (rec : Recognition)
    (transcript : jsstring) :
  step w (RecognitionResult transcript) = Some w' ->
  recognitionRef w = Some rec ->
  forallb is_whitespace transcript = false ->
  feedbackCalls (effects w')
  = feedbackCalls (effects w) ++ [(currentQuestion (builtIn rec), transcript)]
  /\ pending w' = pending w ++ [AwaitFeedback (builtIn rec) transcript]
  /\ interviewState (cells w') = PROCESSING.
Proof.
  unfold step. destruct (mounted w) eqn:Hm; [|discriminate].
  simpl. intros H Hr Hb. rewrite Hr in H.
  destruct (capture w); try discriminate. simpl in H. injection H as <-.
  unfold recognition_onresult.
  destruct (submission_calls_evaluator (builtIn rec) transcript
              (setUserTranscript transcript (setCapture Ending w)) Hb)
    as (Hp & He & Hpd & _).
  set (w1 := handleAnswerSubmission _ _ _) in *.
  assert (Hm1 : mounted w1 = true).
  { unfold w1, handleAnswerSubmission. rewrite truthy_trim, Hb. exact Hm. }
  unfold commit. rewrite Hm1.
  destruct (speakEffect_frame w1) as (Hc & Hpd1 & _).
  assert (Hsp : feedbackCalls (effects (speakEffect w1))
                = feedbackCalls (effects w1)).
  { unfold speakEffect. destruct (decide _); [reflexivity|].
    rewrite Hp. rewrite bool_decide_false by discriminate.
    now rewrite andb_false_r. }
  rewrite Hsp, He, Hc, Hpd1, Hp, Hpd. unfold feedbackCalls.
  rewrite omap_app. repeat split.
Qed.

(** A blank result delivered by the recognizer: back to [AWAITING_ANSWER],
    with the history, the awaits and the calls to the evaluator as before. *)
Lemma blank_result_step (w w' : World) (transcript : jsstring) :
  step w (RecognitionResult transcript) = Some w' ->
  forallb is_whitespace transcript = true ->
  interviewState (cells w') = AWAITING_ANSWER
  /\ interviewHistory (cells w') = interviewHistory (cells w)
  /\ pending w' = pending w
  /\ feedbackCalls (effects w') = feedbackCalls (effects w).
Proof.
  unfold step. destruct (mounted w) eqn:Hm; [|discriminate].
  simpl. intros H Hb.
  destruct (recognitionRef w) as [rec|]; [|discriminate].
  destruct (capture w); try discriminate. simpl in H. injection H as <-.
  unfold recognition_onresult, handleAnswerSubmission.
  rewrite truthy_trim, Hb. simpl. unfold commit. simpl. rewrite Hm.
  set (w1 := setInterviewState _ _).
  destruct (speakEffect_frame w1) as (Hc & Hpd1 & _).
  rewrite Hc, Hpd1. repeat split.
  unfold speakEffect. destruct (decide _); [reflexivity|].
  destruct (_ && _); [|reflexivity]. simpl. unfold feedbackCalls.
  rewrite omap_app. simpl. now rewrite app_nil_r.
Qed.

(** A stale end event in a reachable state: the state cells and the record
    of calls stay as they are. *)
Lemma stale_end_step (w w' : World) :
  reachable w ->
  step w RecognitionEnd = Some w' ->
  interviewState (cells w) <> LISTENING ->
  cells w' = cells w /\ effects w' = effects w /\ pending w' = pending w.
Proof.
  intros Hr Hs Hne. destruct (reachable_sessionInvariant w Hr) as [Hd _].
  unfold step in Hs. destruct (mounted w) eqn:Hm; [|discriminate].
  simpl in Hs. destruct (recognitionRef w); [|discriminate].
  assert (E : recognition_onend (setCapture Idle w) = setCapture Idle w).
  { apply onend_stale. exact Hne. }
  assert (Hc : commit (setCapture Idle w) = setCapture Idle w).
  { unfold commit, speakEffect. simpl. rewrite Hm.
    now rewrite decide_True by exact Hd. }
  destruct (capture w); try discriminate; simpl in Hs;
    rewrite E, Hc in Hs; injection Hs as <-; repeat split.
Qed.


(** C6, amended. For every event handled in a reachable session state:
    speech output is invoked exactly when the event changed the triple
    (current question, phase, [speakText]) and left the phase at
    [AWAITING_ANSWER] with a non-empty current question, and then once,
    with the current question. So every entry into [AWAITING_ANSWER] with
    a non-empty question speaks it, also a repeated entry with the same
    question, and an event that changes none of the three speaks
    nothing. *)
Theorem C6_speak_on_entry (w w' : World) (e : Event) :
  reachable w ->
  step w e = Some w' ->
  spoken (effects w')
  = spoken (effects w) ++
    (if bool_decide (depsOf w' <> depsOf w)
        && truthy (currentQuestion (cells w'))
        && bool_decide (interviewState (cells w') = AWAITING_ANSWER)
     then [currentQuestion (cells w')] else [])
  /\ (interviewState (cells w) <> AWAITING_ANSWER ->
      interviewState (cells w') = AWAITING_ANSWER ->
      currentQuestion (cells w') <> [] ->
      spoken (effects w') = spoken (effects w) ++ [currentQuestion (cells w')])
  /\ (depsOf w' = depsOf w -> spoken (effects w') = spoken (effects w)).
Proof.
  intros Hr Hs.
  assert (Hgen : spoken (effects w')
    = spoken (effects w) ++
      (if bool_decide (depsOf w' <> depsOf w)
          && truthy (currentQuestion (cells w'))
          && bool_decide (interviewState (cells w') = AWAITING_ANSWER)
       then [currentQuestion (cells w')] else [])).
  { destruct (reachable_sessionInvariant w Hr) as [Hd _].
    unfold step in Hs. destruct (mounted w) eqn:Hm; [|discriminate].
    destruct (handle e w) as [w1|] eqn:Hh; [|discriminate].
    simpl in Hs. injection Hs as <-.
    destruct (handle_frame _ _ _ Hh) as (Hsp & Hd1 & Hu).
    unfold commit. destruct (mounted w1) eqn:Hm1.
    - rewrite speakEffect_spoken, Hsp.
      destruct (speakEffect_frame w1) as (Hc & _ & _ & _ & Hid & _ & _).
      assert (Hdeps : depsOf (speakEffect w1) = depsOf w1)
        by (unfold depsOf; now rewrite Hc, Hid).
      rewrite Hdeps, Hc, Hd1, Hd. f_equal.
      assert (Hb : bool_decide (Some (depsOf w) <> Some (depsOf w1))
                   = bool_decide (depsOf w1 <> depsOf w)).
      { apply bool_decide_ext. split; intros H1 H2; apply H1; congruence. }
      now rewrite Hb.
    - rewrite Hsp, (bool_decide_false (depsOf w1 <> _)).
      + simpl. now rewrite app_nil_r.
      + intros H. apply H. now apply Hu. }
  split; [exact Hgen|]. split.
  - intros Hne Ha Hq. rewrite Hgen.
    rewrite (bool_decide_true (depsOf w' <> _)).
    + rewrite (bool_decide_true (interviewState _ = _)) by assumption.
      destruct (currentQuestion (cells w')); [congruence|reflexivity].
    + unfold depsOf. intros H. injection H as _ H _. congruence.
  - intros Heq. rewrite Hgen.
    rewrite (bool_decide_false (depsOf w' <> _)) by tauto.
    simpl. now rewrite app_nil_r.
Qed.

End Invariant.

(** ** Concrete sessions *)

Section Sessions.

Lemma worldAfter_reachable (es : list Event) : reachable (worldAfter es).
Proof.
  unfold worldAfter. destruct (run (mount true) es) as [w|] eqn:H.
  - now exists true, es.
  - apply reachable_mount.
Qed.

(** The scenario of the opening question: the asterisk is removed, the
    phase is [AWAITING_ANSWER] and the question is spoken once. *)
Lemma opening_scenario :
  let w := worldAfter opening in
  run (mount true) opening = Some w
  /\ currentQuestion (cells w) = question1
  /\ interviewState (cells w) = AWAITING_ANSWER
  /\ spoken (effects w) = [question1].
Proof. vm_compute. repeat split. Qed.

(** The scenario of the first answer: the evaluator is called with the
    current question, one turn is recorded, the next question is staged. *)
Lemma first_turn_scenario :
  let w := worldAfter firstTurn in
  run (mount true) firstTurn = Some w
  /\ feedbackCalls (effects w) = [(question1, answer1)]
  /\ interviewHistory (cells w) = [turn1]
  /\ stagedNextQuestion (cells w) = Some question2
  /\ interviewState (cells w) = DISPLAYING_FEEDBACK.
Proof. vm_compute. repeat split. Qed.

(** C1. The code at a failing input. The first question is answered by
    voice, the user advances to the second question and answers it by
    voice. The second submission happens while the current question is the
    second one, yet the evaluator is called with the first question, and
    the turn appended on its response records the first question: the
    recognizer and its result callback were built during the first
    question and still hold the handler of that render. *)
Theorem C1_second_submission_uses_first_question :
  let w := worldAfter secondSubmission in
  let w' := worldAfter secondTurn in
  run (mount true) secondSubmission = Some w
  /\ step w (FeedbackResolved response2) = Some w'
  /\ currentQuestion (cells w) = question2
  /\ interviewState (cells w) = PROCESSING
  /\ feedbackCalls (effects w)
     = [(question1, answer1); (question1, answer2)]
  /\ interviewHistory (cells w')
     = [turn1; Turn.mk question1 answer2 (js "Clear.")]
  /\ currentQuestion (cells w') = question2
  /\ question1 <> question2.
Proof. vm_compute. repeat split. discriminate. Qed.

(** C3 as stated fails. The evaluator proposes a next question that is a
    single asterisk; without it the staged question is the empty text,
    which is present but not truthy. Advancing then does not promote it:
    the staged question is kept and the summary is requested. *)
Lemma C3_counterexample :
  let w := worldAfter asteriskQuestion in
  let w' := handleNextQuestion (cells w) w in
  run (mount true) asteriskQuestion = Some w
  /\ interviewState (cells w) = DISPLAYING_FEEDBACK
  /\ stagedNextQuestion (cells w) = Some []
  /\ interviewState (cells w') = PROCESSING_SUMMARY
  /\ ~ (currentQuestion (cells w') = []
        /\ stagedNextQuestion (cells w') = None
        /\ interviewState (cells w') = AWAITING_ANSWER).
Proof.
  vm_compute. repeat split. intros (H & _). discriminate H.
Qed.


(** C6 as stated fails. The user taps the microphone and the capture
    ends without a result: the machine is back in [AWAITING_ANSWER] with
    the same question, and the question has been spoken twice. *)
Lemma C6_counterexample :
  let w := worldAfter silentCapture in
  run (mount true) silentCapture = Some w
  /\ currentQuestion (cells w) = question1
  /\ interviewState (cells w) = AWAITING_ANSWER
  /\ interviewHistory (cells w) = []
  /\ spoken (effects w) = [question1; question1]
  /\ length (spoken (effects w)) <> 1.
Proof. vm_compute. repeat split. discriminate. Qed.

Lemma C2_blank_transcript_witness :
  let w' := handleAnswerSubmission (cells listeningWorld) (js "   ")
              listeningWorld in
  interviewState (cells w') = AWAITING_ANSWER
  /\ effects w' = effects listeningWorld
  /\ feedbackCalls (effects w') = feedbackCalls (effects listeningWorld)
  /\ pending w' = pending listeningWorld
  /\ interviewHistory (cells w') = interviewHistory (cells listeningWorld).
Proof.
  apply (C2_blank_transcript (cells listeningWorld) (js "   ") listeningWorld).
  reflexivity.
Defined.

Lemma C10_capture_end_witness :
  interviewState (cells (recognition_onend listeningWorld)) = AWAITING_ANSWER
  /\ recognition_onend processingWorld = processingWorld.
Proof.
  split.
  - apply (proj1 (C10_capture_end listeningWorld)). reflexivity.
  - apply (proj2 (C10_capture_end processingWorld)). discriminate.
Defined.


Lemma C3_advance_witness :
  cells (handleNextQuestion (cells feedbackWorld) feedbackWorld)
  = mkCells AWAITING_ANSWER question2 None [] [] [turn1] []
  /\ interviewState
       (cells (handleNextQuestion (cells abortWorld) abortWorld))
     = PROCESSING_SUMMARY.
Proof.
  split.
  - destruct (proj1 (C3_advance feedbackWorld) question2 eq_refl) as (H & _).
    + discriminate.
    + exact H.
  - destruct (proj2 (C3_advance abortWorld)) as (_ & H & _).
    + left. reflexivity.
    + exact H.
Defined.


Lemma C6_speak_on_entry_witness :
  spoken (effects (worldAfter opening))
  = spoken (effects (mount true)) ++ [question1].
Proof.
  refine (proj1 (proj2 (C6_speak_on_entry (mount true) (worldAfter opening)
            (SendMessageToAIResolved
               (js "Tell me about a time you led a team.*"))
            (reachable_mount true) _)) _ _ _).
  - vm_compute. reflexivity.
  - vm_compute. discriminate.
  - vm_compute. reflexivity.
  - vm_compute. discriminate.
Defined.

End Sessions.

(** ** Speech output and the provider's state *)

Section SpeechOutputFacts.

(** X1. [speakText] does nothing at all, not even cancel the utterance
    being spoken, exactly when the text is empty or the platform has no
    speech synthesis; otherwise it cancels first and then speaks the text
    once. *)
Theorem speakText_cancel_then_speak (hasSpeechSynthesis : bool)
    (st : VoiceState) (text : jsstring) :
  (speakText hasSpeechSynthesis st text = []
   <-> hasSpeechSynthesis = false \/ text = [])
  /\ (hasSpeechSynthesis = true -> text <> [] ->
      exists voice,
        speakText hasSpeechSynthesis st text
        = [SynthesisCancel; SynthesisSpeak text voice]
        /\ (forall v, voice = Some v ->
              In v (availableVoices st)
              /\ selectedVoiceURI st = Some (voiceURI v))).
Proof.
  unfold speakText. split.
  - destruct hasSpeechSynthesis, text; simpl; split; intros H;
      try reflexivity; try discriminate; auto.
    destruct H; discriminate.
  - intros -> Hne. destruct text; [congruence|]. simpl.
    exists (utteranceVoice st). split; [reflexivity|].
    intros v Hv. unfold utteranceVoice, findVoice in Hv.
    destruct (selectedVoiceURI st) as [uri|]; [|discriminate].
    destruct (truthy uri); [|discriminate].
    apply find_some in Hv. destruct Hv as [Hin Heq].
    apply bool_decide_eq_true in Heq. split; [exact Hin|congruence].
Qed.

Lemma defaultChoice_member (voices : list Voice) (uri : jsstring) :
  defaultChoice voices = Some uri ->
  exists v, In v voices /\ voiceURI v = uri.
Proof.
  unfold defaultChoice.
  destruct (List.find isDefault voices) as [d|] eqn:Hf.
  - intros H. injection H as <-. exists d. split; [|reflexivity].
    now apply find_some in Hf.
  - destruct voices as [|v0 rest]; [discriminate|].
    intros H. injection H as <-. exists v0. split; [now left|reflexivity].
Qed.

Lemma findVoice_member (uri : jsstring) (voices : list Voice) (v : Voice) :
  In v voices -> voiceURI v = uri ->
  exists v', findVoice uri voices = Some v'
             /\ In v' voices /\ voiceURI v' = uri.
Proof.
  intros Hin Hu. unfold findVoice.
  destruct (List.find (fun v0 => bool_decide (voiceURI v0 = uri)) voices)
    as [v'|] eqn:Hf.
  - exists v'. apply find_some in Hf. destruct Hf as [H1 H2].
    apply bool_decide_eq_true in H2. auto.
  - exfalso. apply (find_none _ _ Hf) in Hin.
    apply bool_decide_eq_false in Hin. contradiction.
Qed.

Lemma englishVoices_spec (getVoices : list Voice) (v : Voice) :
  In v (englishVoices getVoices)
  <-> In v getVoices /\ startsWith (js "en") (lang v) = true.
Proof. unfold englishVoices. apply filter_In. Qed.

(** X2. After a voice-list refresh that finds an English voice whose URI
    is not the empty text, whatever was selected before, a non-empty text
    is spoken with a voice of the platform's list whose language tag starts
    with "en" and whose URI is the one now selected. *)
Theorem speak_after_refresh (getVoices : list Voice) (st : VoiceState)
    (text : jsstring) :
  englishVoices getVoices <> [] ->
  (forall v, In v getVoices -> voiceURI v <> []) ->
  text <> [] ->
  exists v,
    speakText true (onvoiceschanged getVoices st) text
    = [SynthesisCancel; SynthesisSpeak text (Some v)]
    /\ In v getVoices
    /\ startsWith (js "en") (lang v) = true
    /\ selectedVoiceURI (onvoiceschanged getVoices st) = Some (voiceURI v).
Proof.
  intros Hne Huri Htext.
  pose proof (refresh_ignores_selection getVoices st Hne) as Hsel.
  assert (Hav : availableVoices (onvoiceschanged getVoices st)
                = englishVoices getVoices).
  { rewrite loadVoices_unfold. cbv zeta.
    destruct (0 <? length (englishVoices getVoices)); [|reflexivity].
    destruct (defaultChoice (englishVoices getVoices)); reflexivity. }
  destruct (defaultChoice (englishVoices getVoices)) as [uri|] eqn:Hd.
  - destruct (defaultChoice_member _ _ Hd) as (v0 & Hin0 & Hu0).
    destruct (findVoice_member uri _ v0 Hin0 Hu0) as (v & Hf & Hin & Hu).
    apply englishVoices_spec in Hin. destruct Hin as [Hin Hen].
    exists v. unfold speakText, utteranceVoice.
    rewrite Hsel, Hav, Hf. destruct text; [congruence|]. simpl.
    assert (Ht : truthy uri = true).
    { specialize (Huri v Hin). rewrite Hu in Huri.
      destruct uri; [congruence|reflexivity]. }
    rewrite Ht. repeat split; try assumption. now rewrite Hu.
  - unfold defaultChoice in Hd.
    destruct (List.find isDefault (englishVoices getVoices)); [discriminate|].
    destruct (englishVoices getVoices); [congruence|discriminate].
Qed.

(** X3. A voice-list refresh that finds no English voice empties the list
    of available voices and keeps the selection; a text spoken afterwards
    carries no voice of its own. *)
Theorem refresh_without_english_voice (getVoices : list Voice)
    (st : VoiceState) (text : jsstring) :
  englishVoices getVoices = [] ->
  availableVoices (onvoiceschanged getVoices st) = []
  /\ selectedVoiceURI (onvoiceschanged getVoices st) = selectedVoiceURI st
  /\ (text <> [] ->
      speakText true (onvoiceschanged getVoices st) text
      = [SynthesisCancel; SynthesisSpeak text None]).
Proof.
  intros He. rewrite loadVoices_unfold, He. simpl. repeat split.
  intros Hne. unfold speakText, utteranceVoice. simpl.
  destruct text; [congruence|]. simpl.
  destruct (selectedVoiceURI st) as [uri|]; [|reflexivity].
  destruct (truthy uri); reflexivity.
Qed.

(** The voices offered after a refresh are the English voices of the
    platform, in the platform's order. *)
Lemma refresh_offers_english_voices (getVoices : list Voice)
    (st : VoiceState) :
  availableVoices (onvoiceschanged getVoices st) = englishVoices getVoices.
Proof.
  rewrite loadVoices_unfold. cbv zeta.
  destruct (0 <? length (englishVoices getVoices)); [|reflexivity].
  destruct (defaultChoice (englishVoices getVoices)); reflexivity.
Qed.

End SpeechOutputFacts.

Section CacheStability.

Variable translateText : jsstring -> Language -> jsstring.






(** One call of [translate] calls the collaborator at most once, and only
    for the text and language it was asked about; with the base language it
    calls nobody. *)
Lemma translate_calls_at_most_once (language : Language) (text : jsstring)
    (st : TranslateState) :
  let st' := snd (translate translateText language text st) in
  translateTextCalls st' = translateTextCalls st
  \/ (language <> English
      /\ translateTextCalls st' = translateTextCalls st ++ [(text, language)]
      /\ fst (translate translateText language text st)
         = translateText text language).
Proof.
  unfold translate. destruct language; [now left|].
  destruct (cached (translationCache st) text Tamil) as [v|].
  - destruct (truthy v); [now left|]. right. repeat split. discriminate.
  - right. repeat split. discriminate.
Qed.

End CacheStability.

(** ** Interview session: what every reachable state satisfies *)

Ltac open_handlers H :=
  unfold handleToggleListening, handleNextQuestion, handleEndInterview,
    recognition_onresult, recognition_onend, recognition_onerror,
    handleAnswerSubmission, handleAnswerSubmission_resume,
    handleEndInterview_resume, startInterview_resume, navigate, teardown,
    recognition_start in H;
  simpl in H.

Ltac split_cases H :=
  repeat match type of H with
  | context [match ?x with _ => _ end] =>
    match type of x with
    | option _ => destruct x eqn:?
    | bool => destruct x eqn:?
    | Capture => destruct x eqn:?
    | InterviewState => destruct x eqn:?
    | sumbool _ _ => destruct x
    | list _ => destruct x eqn:?
    | prod _ _ => destruct x eqn:?
    | Pending => destruct x eqn:?
    end; simpl in H; try discriminate H
  end.

Ltac open_invariant Inv :=
  unfold phaseInvariant in Inv; simpl in Inv;
  repeat match type of Inv with
  | _ /\ _ => let H := fresh "Inv" in destruct Inv as [H Inv]
  end.

Ltac open_await :=
  repeat match goal with
  | H : onlyAwait _ _ |- _ =>
    let p := fresh "p" in
    destruct H as (p & -> & H); destruct p; try discriminate H
  | H : _ \/ _ |- _ => destruct H
  | H : _ /\ _ |- _ => destruct H
  end.

Ltac tidy_calls :=
  unfold feedbackCalls, summaryCalls, promptCalls, recorded,
    pendingSubmissions in *;
  simpl in *;
  rewrite ?omap_app, ?map_app, ?app_nil_r in *; simpl in *.

Section SessionFacts.

Lemma speakEffect_effects (w : World) :
  effects (speakEffect w) = effects w
  \/ (effects (speakEffect w)
      = effects w ++ [SpeakText (currentQuestion (cells w))]
      /\ currentQuestion (cells w) <> []
      /\ interviewState (cells w) = AWAITING_ANSWER).
Proof.
  unfold speakEffect. destruct (decide _); [now left|].
  destruct (truthy _) eqn:Ht; simpl; [|now left].
  destruct (bool_decide _) eqn:Hb; [|now left].
  right. apply bool_decide_eq_true in Hb. repeat split; [|exact Hb].
  intros E. now rewrite E in Ht.
Qed.

(** One event: the handler, then at most one call of [speakText], made
    with the current question on arrival in [AWAITING_ANSWER]. *)
Lemma step_decompose (w w' : World) (e : Event) :
  step w e = Some w' ->
  mounted w = true
  /\ exists w1,
       handle e w = Some w1
       /\ cells w' = cells w1
       /\ pending w' = pending w1
       /\ capture w' = capture w1
       /\ recognitionRef w' = recognitionRef w1
       /\ hasSpeechRecognition w' = hasSpeechRecognition w1
       /\ mounted w' = mounted w1
       /\ (effects w' = effects w1
           \/ (effects w'
               = effects w1 ++ [SpeakText (currentQuestion (cells w1))]
               /\ currentQuestion (cells w1) <> []
               /\ interviewState (cells w1) = AWAITING_ANSWER)).
Proof.
  unfold step. destruct (mounted w); [|discriminate].
  destruct (handle e w) as [w1|]; [|discriminate].
  simpl. intros H. injection H as <-. split; [reflexivity|].
  exists w1. split; [reflexivity|]. unfold commit.
  destruct (mounted w1) eqn:Hm.
  - destruct (speakEffect_frame w1) as (H1 & H2 & H3 & H4 & _ & H6 & _).
    assert (H5 : hasSpeechRecognition (speakEffect w1)
                 = hasSpeechRecognition w1).
    { unfold speakEffect. destruct (decide _); [reflexivity|].
      destruct (_ && _); reflexivity. }
    rewrite H1, H2, H3, H4, H5, H6, Hm. repeat split.
    apply speakEffect_effects.
  - repeat split; auto.
Qed.

Lemma appended_calls {A : Type} (f : Effect -> option A) (l l' : list Effect) :
  (l' = l \/ exists t, l' = l ++ [SpeakText t]) ->
  (forall t, f (SpeakText t) = None) ->
  omap f l' = omap f l.
Proof.
  intros [->|[t ->]] Hf; [reflexivity|].
  rewrite omap_app. simpl. rewrite Hf. apply app_nil_r.
Qed.

Lemma step_effects (w1 w' : World) :
  (effects w' = effects w1
   \/ (effects w' = effects w1 ++ [SpeakText (currentQuestion (cells w1))]
       /\ currentQuestion (cells w1) <> []
       /\ interviewState (cells w1) = AWAITING_ANSWER)) ->
  effects w' = effects w1 \/ exists t, effects w' = effects w1 ++ [SpeakText t].
Proof. intros [H|(H & _)]; [now left|right; eauto]. Qed.

(** *** Recorded turns *)

Lemma handle_history (w w1 : World) (e : Event) :
  handle e w = Some w1 ->
  interviewHistory (cells w1) = interviewHistory (cells w)
  \/ exists t, interviewHistory (cells w1) = interviewHistory (cells w) ++ [t].
Proof.
  destruct w as [[ph cq st ut fb h sm] rr cap pd ef sd sid hs mt].
  intros H. destruct e; simpl in H; open_handlers H; split_cases H;
    injection H as <-; simpl; try (now left).
  all: right; eexists; reflexivity.
Qed.

(** X6. The history is append-only: whatever events a session handles,
    the turns recorded before are still there, unchanged and in the same
    order, and one event records at most one turn. *)
Theorem history_append_only (w w' : World) (es : list Event) :
  run w es = Some w' ->
  (exists more,
     interviewHistory (cells w') = interviewHistory (cells w) ++ more
     /\ length more <= length es).
Proof.
  revert w. induction es as [|e es IH]; intros w; simpl.
  - intros H. injection H as <-. exists []. rewrite app_nil_r.
    split; [reflexivity|simpl; lia].
  - destruct (step w e) as [w1|] eqn:Hs; [|discriminate]. intros Hr.
    destruct (IH w1 Hr) as (more & Hm & Hl).
    destruct (step_decompose _ _ _ Hs) as (_ & w0 & Hh & Hc & _).
    rewrite Hm, Hc.
    destruct (handle_history _ _ _ Hh) as [->|[t ->]].
    + exists more. split; [reflexivity|simpl; lia].
    + exists (t :: more). rewrite <- app_assoc. split; [reflexivity|simpl; lia].
Qed.

Lemma history_append_only_witness :
  exists more,
    interviewHistory (cells (worldAfter secondTurn))
    = interviewHistory (cells (worldAfter firstTurn)) ++ more
    /\ length more <= 5.
Proof.
  apply (history_append_only (worldAfter firstTurn) (worldAfter secondTurn)
           [ClickNextQuestion; ClickMicrophone; RecognitionResult answer2;
            RecognitionEnd; FeedbackResolved response2]).
  vm_compute. reflexivity.
Defined.

(** *** Calls and awaits *)




(** X8. In every reachable session state at most one collaborator call
    is awaited, and only in the phases [PROCESSING] and
    [PROCESSING_SUMMARY]: the evaluator and the summarizer are never called
    while another call is in flight. *)
Theorem at_most_one_await (w : World) :
  reachable w ->
  length (pending w) <= 1
  /\ (pending w <> [] ->
      interviewState (cells w) = PROCESSING
      \/ interviewState (cells w) = PROCESSING_SUMMARY).
Proof.
  intros Hr. destruct (reachable_sessionInvariant w Hr) as [_ Hinv].
  unfold phaseInvariant in Hinv.
  destruct (interviewState (cells w)); try contradiction; open_await;
    try rewrite Hinv; try match goal with H : pending w = [] |- _ =>
                            rewrite H end;
    simpl; split; try lia; try congruence; auto.
Qed.

Lemma at_most_one_await_witness :
  length (pending (worldAfter secondSubmission)) <= 1.
Proof.
  apply (at_most_one_await (worldAfter secondSubmission)).
  exists true, secondSubmission. vm_compute. reflexivity.
Defined.

End SessionFacts.
Section SessionTexts.

Lemma asteriskFree_nil : asteriskFree [].
Proof. intros H. destruct H. Qed.

Lemma handle_clean (w w1 : World) (e : Event) :
  handle e w = Some w1 ->
  shownTextsClean (cells w) -> shownTextsClean (cells w1).
Proof.
  destruct w as [[ph cq st ut fb h sm] rr cap pd ef sd sid hs mt].
  unfold shownTextsClean. simpl. intros H (Hq & Hf & Hs & Hst & Hh).
  destruct e; simpl in H; open_handlers H; rewrite ?andb_false_r in H;
    split_cases H; injection H as <-; simpl.
  all: repeat split; auto using asteriskFree_nil, replace_asterisks_clean.
  all: try discriminate.
  all: try (intros q Hq'; injection Hq' as <-; apply replace_asterisks_clean).
  all: try (intros t Ht; apply in_app_or in Ht; destruct Ht as [Ht|[<-|[]]];
            [now apply Hh|apply replace_asterisks_clean]).
  all: apply replace_asterisks_clean.
Qed.

(** X9. In every reachable session state no text that came from a
    collaborator carries an asterisk: not the current question, the
    feedback shown, the summary, the staged question or the feedback of any
    recorded turn; and every text handed to speech output is a non-empty
    text without asterisks. *)
Theorem shown_and_spoken_texts_clean (w : World) :
  reachable w ->
  shownTextsClean (cells w)
  /\ (forall t, In t (spoken (effects w)) -> asteriskFree t /\ t <> []).
Proof.
  apply reachable_ind with
    (P := fun w => shownTextsClean (cells w)
                   /\ (forall t, In t (spoken (effects w)) ->
                         asteriskFree t /\ t <> [])).
  - intros b. split.
    + unfold shownTextsClean. simpl.
      repeat split; try apply asteriskFree_nil; try discriminate.
      intros t [].
    + intros t [].
  - intros w0 e w' _ [Hc Hsp] Hs.
    destruct (step_decompose _ _ _ Hs)
      as (_ & w1 & Hh & Hcells & _ & _ & _ & _ & _ & He).
    pose proof (handle_clean _ _ _ Hh Hc) as Hc1.
    destruct (handle_frame _ _ _ Hh) as (Hsp1 & _).
    split; [now rewrite Hcells|].
    intros t Ht. destruct He as [He|(He & Hne & _)].
    + rewrite He, Hsp1 in Ht. now apply Hsp.
    + rewrite He in Ht. unfold spoken in Ht. rewrite omap_app in Ht.
      apply in_app_or in Ht. destruct Ht as [Ht|[<-|[]]].
      * fold (spoken (effects w1)) in Ht. rewrite Hsp1 in Ht. now apply Hsp.
      * split; [exact (proj1 Hc1)|exact Hne].
Qed.

Lemma shown_and_spoken_texts_clean_witness :
  asteriskFree (currentQuestion (cells (worldAfter firstTurn)))
  /\ asteriskFree (feedback (cells (worldAfter firstTurn))).
Proof.
  destruct (shown_and_spoken_texts_clean (worldAfter firstTurn))
    as ((H1 & H2 & _) & _).
  - exists true, firstTurn. vm_compute. reflexivity.
  - split; [exact H1|exact H2].
Defined.

(** *** The summary *)

Lemma handle_summary (w w1 : World) (e : Event) :
  phaseInvariant w ->
  handle e w = Some w1 ->
  summaryMatchesHistory w -> summaryMatchesHistory w1.
Proof.
  destruct w as [[ph cq st ut fb h sm] rr cap pd ef sd sid hs mt].
  unfold summaryMatchesHistory, phaseInvariant. simpl. intros Inv H HP.
  destruct e; destruct ph; simpl in H; try discriminate H;
    try contradiction; open_await; subst; simpl in H; try discriminate H.
  all: open_handlers H; rewrite ?andb_false_r in H; split_cases H.
  all: injection H as <-; tidy_calls; rewrite ?HP; try reflexivity.
  all: try congruence.
Qed.

(** X10. In every reachable session state the summarizer has been called
    at most once, and if it has (the phase is [PROCESSING_SUMMARY] or
    [COMPLETED]) it was called with exactly the history the session still
    holds: the summary shown is a summary of all recorded turns. In every
    other phase it has not been called. *)
Theorem summary_of_final_history (w : World) :
  reachable w ->
  (interviewState (cells w) = PROCESSING_SUMMARY
   \/ interviewState (cells w) = COMPLETED ->
   summaryCalls (effects w) = [interviewHistory (cells w)])
  /\ (interviewState (cells w) <> PROCESSING_SUMMARY ->
      interviewState (cells w) <> COMPLETED ->
      summaryCalls (effects w) = []).
Proof.
  intros Hr.
  assert (H : summaryMatchesHistory w).
  { revert w Hr. apply reachable_ind.
    - intros b. reflexivity.
    - intros w0 e w' Hr HP Hs.
      destruct (reachable_sessionInvariant w0 Hr) as [_ Hinv].
      destruct (step_decompose _ _ _ Hs)
        as (_ & w1 & Hh & Hc & _ & _ & _ & _ & _ & He).
      pose proof (handle_summary _ _ _ Hinv Hh HP) as H1.
      unfold summaryMatchesHistory, summaryCalls in *.
      rewrite Hc.
      now rewrite (appended_calls _ (effects w1) (effects w')
                     (step_effects _ _ He)) by reflexivity. }
  unfold summaryMatchesHistory in H.
  destruct (interviewState (cells w)); split; intros; try exact H;
    try congruence; try (destruct H0; discriminate).
Qed.

Lemma summary_of_final_history_witness :
  summaryCalls (effects (worldAfter endedEarlyCompleted))
  = [interviewHistory (cells (worldAfter endedEarlyCompleted))].
Proof.
  apply (proj1 (summary_of_final_history (worldAfter endedEarlyCompleted)
                  (worldAfter_reachable endedEarlyCompleted))).
  right. vm_compute. reflexivity.
Defined.

(** X11. [COMPLETED] is terminal: no event handled in a reachable
    completed session changes a state cell, calls the evaluator or the
    summarizer, or speaks. *)
Theorem completed_is_terminal (w w' : World) (e : Event) :
  reachable w ->
  interviewState (cells w) = COMPLETED ->
  step w e = Some w' ->
  cells w' = cells w
  /\ feedbackCalls (effects w') = feedbackCalls (effects w)
  /\ summaryCalls (effects w') = summaryCalls (effects w)
  /\ spoken (effects w') = spoken (effects w).
Proof.
  intros Hr Hph Hs.
  destruct (reachable_sessionInvariant w Hr) as [_ Hinv].
  destruct (step_decompose _ _ _ Hs)
    as (_ & w1 & Hh & Hc & _ & _ & _ & _ & _ & He).
  assert (H1 : cells w1 = cells w
               /\ feedbackCalls (effects w1) = feedbackCalls (effects w)
               /\ summaryCalls (effects w1) = summaryCalls (effects w)
               /\ spoken (effects w1) = spoken (effects w)).
  { clear Hs He Hc Hr.
    destruct w as [[ph cq st ut fb h sm] rr cap pd ef sd sid hs mt].
    simpl in Hph. subst ph. unfold phaseInvariant in Hinv. simpl in Hinv.
    destruct Hinv as [Hcap Hpd]. subst pd.
    destruct e; simpl in Hh; try discriminate Hh.
    all: open_handlers Hh; split_cases Hh; try congruence.
    all: injection Hh as <-; unfold spoken; tidy_calls; repeat split. }
  destruct H1 as (Hc1 & Hf1 & Hs1 & Hsp1).
  rewrite Hc. split; [exact Hc1|].
  destruct He as [He|(_ & _ & Ha)].
  - rewrite He. auto.
  - rewrite Hc1, Hph in Ha. discriminate.
Qed.

Lemma completed_is_terminal_witness :
  cells (worldAfter (endedEarlyCompleted ++ [SpeakTextChanged]))
  = cells (worldAfter endedEarlyCompleted).
Proof.
  refine (proj1 (completed_is_terminal (worldAfter endedEarlyCompleted)
                   (worldAfter (endedEarlyCompleted ++ [SpeakTextChanged]))
                   SpeakTextChanged
                   (worldAfter_reachable endedEarlyCompleted) _ _)).
  - vm_compute. reflexivity.
  - vm_compute. reflexivity.
Defined.

End SessionTexts.
Ltac eval_step :=
  unfold step, handle, handleToggleListening, recognition_start,
    recognition_onend, commit, speakEffect, depsOf;
  simpl;
  repeat (first [rewrite decide_True by congruence
                |rewrite decide_False by congruence]; simpl);
  reflexivity.

Section SessionProgress.

Lemma handle_stuck (w w1 : World) (e : Event) :
  handle e w = Some w1 -> stuckAtOpening w -> stuckAtOpening w1.
Proof.
  destruct w as [[ph cq st ut fb h sm] rr cap pd ef sd sid hs mt].
  unfold stuckAtOpening. simpl.
  intros H (-> & -> & -> & -> & Hf & Hs & Hph).
  destruct Hph as [[-> ->]|[-> ->]]; destruct e; simpl in H;
    try discriminate H; open_handlers H; injection H as <-; tidy_calls;
    repeat split; auto.
Qed.

Lemma step_stuck (w w' : World) (e : Event) :
  step w e = Some w' -> stuckAtOpening w -> stuckAtOpening w'.
Proof.
  intros Hs Hst.
  destruct (step_decompose _ _ _ Hs)
    as (_ & w1 & Hh & Hc & Hpd & Hcap & Hrr & Hhs & _ & He).
  pose proof (handle_stuck _ _ _ Hh Hst) as H1.
  unfold stuckAtOpening, feedbackCalls, summaryCalls in *.
  rewrite Hc, Hpd, Hcap, Hrr, Hhs.
  rewrite !(appended_calls _ (effects w1) (effects w') (step_effects _ _ He))
    by reflexivity.
  exact H1.
Qed.

(** X12. On a platform without speech recognition a session never gets
    past its opening question: whatever events occur, no recognition object
    is built, no answer is submitted, no turn is recorded, the evaluator and
    the summarizer are never called, and the phase is [PROCESSING] (before
    the opening question arrives) or [AWAITING_ANSWER]. *)
Theorem no_recognition_no_progress (es : list Event) (w : World) :
  run (mount false) es = Some w ->
  recognitionRef w = None
  /\ interviewHistory (cells w) = []
  /\ feedbackCalls (effects w) = []
  /\ summaryCalls (effects w) = []
  /\ (interviewState (cells w) = PROCESSING
      \/ interviewState (cells w) = AWAITING_ANSWER).
Proof.
  intros Hr.
  assert (H : stuckAtOpening w).
  { assert (H0 : stuckAtOpening (mount false)).
    { unfold stuckAtOpening. simpl. repeat split. left. split; reflexivity. }
    revert Hr H0. generalize (mount false). revert w.
    induction es as [|e es IH]; intros w w0 Hr H0; simpl in Hr.
    - now injection Hr as <-.
    - destruct (step w0 e) as [w1|] eqn:Hs; [|discriminate].
      apply (IH w w1 Hr). now apply (step_stuck w0 w1 e). }
  destruct H as (_ & H1 & _ & H2 & H3 & H4 & H5).
  repeat split; try assumption.
  destruct H5 as [[H5 _]|[H5 _]]; auto.
Qed.

Lemma no_recognition_no_progress_witness :
  interviewHistory
    (cells (default (mount false)
              (run (mount false)
                 (opening ++ [ClickMicrophone; ClickMicrophone])))) = [].
Proof.
  refine (proj1 (proj2 (no_recognition_no_progress
            (opening ++ [ClickMicrophone; ClickMicrophone]) _ _))).
  vm_compute. reflexivity.
Defined.

(** Tapping the microphone without speech recognition alerts the user and
    changes nothing else. *)
Lemma tap_without_recognition (w : World) :
  hasSpeechRecognition w = false ->
  handleToggleListening (cells w) w = emit Alert w.
Proof. intros H. unfold handleToggleListening. now rewrite H. Qed.

Lemma handle_first_tap (w w1 : World) (e : Event) :
  phaseInvariant w ->
  handle e w = Some w1 ->
  questionOfFirstTap w -> questionOfFirstTap w1.
Proof.
  destruct w as [[ph cq st ut fb h sm] rr cap pd ef sd sid hs mt].
  unfold questionOfFirstTap, phaseInvariant. simpl. intros Inv H HP.
  destruct rr as [rec|]; destruct HP as [HP1 HP2].
  all: destruct e; destruct ph; simpl in H; try discriminate H;
    try contradiction; open_await; subst; simpl in H; try discriminate H.
  all: open_handlers H; rewrite ?andb_false_r in H; split_cases H.
  all: injection H as <-; simpl in *.
  all: try (exfalso; exact (HP2 _ _ (or_introl eq_refl))).
  all: try (exfalso; congruence).
  all: split.
  all: try exact HP1.
  all: try exact HP2.
  all: try reflexivity.
  all: try solve [intros r0 t0 [E|[]]; discriminate E].
  all: try solve [intros r0 t0 [E|[]]; injection E as <- <-; reflexivity].
  all: try solve [intros r0 t0 []].
  all: try solve [intros t0 []].
  all: try solve [intros t0 Ht0; apply in_app_or in Ht0;
                  destruct Ht0 as [Ht0|[<-|[]]];
                  [now apply HP1
                  |simpl; now rewrite (HP2 _ _ (or_introl eq_refl))]].
Qed.

(** X13. In every reachable session state every recorded turn carries
    one and the same question: the current question of the render in which
    the microphone was first tapped, whatever question was current when the
    answer was given. Before the first tap nothing is recorded. *)
Theorem turns_carry_first_tap_question (w : World) :
  reachable w ->
  (forall rec t, recognitionRef w = Some rec ->
     In t (interviewHistory (cells w)) ->
     Turn.question t = currentQuestion (builtIn rec))
  /\ (recognitionRef w = None -> interviewHistory (cells w) = [])
  /\ (forall t1 t2, In t1 (interviewHistory (cells w)) ->
        In t2 (interviewHistory (cells w)) ->
        Turn.question t1 = Turn.question t2).
Proof.
  intros Hr.
  assert (H : questionOfFirstTap w).
  { revert w Hr. apply reachable_ind.
    - intros b. simpl. split; [reflexivity|].
      intros r t [E|[]]. discriminate.
    - intros w0 e w' Hr HP Hs.
      destruct (reachable_sessionInvariant w0 Hr) as [_ Hinv].
      destruct (step_decompose _ _ _ Hs)
        as (_ & w1 & Hh & Hc & Hpd & _ & Hrr & _).
      pose proof (handle_first_tap _ _ _ Hinv Hh HP) as H1.
      unfold questionOfFirstTap in *. now rewrite Hc, Hpd, Hrr. }
  unfold questionOfFirstTap in H.
  destruct (recognitionRef w) as [rec|]; destruct H as [H1 H2].
  - split; [|split].
    + intros rec' t E. injection E as <-. apply H1.
    + discriminate.
    + intros t1 t2 Ht1 Ht2. now rewrite (H1 t1 Ht1), (H1 t2 Ht2).
  - split; [|split].
    + discriminate.
    + auto.
    + intros t1 t2 Ht1. rewrite H1 in Ht1. destruct Ht1.
Qed.

Lemma turns_carry_first_tap_question_witness :
  Turn.question turn1
  = Turn.question (Turn.mk question1 answer2 (js "Clear.")).
Proof.
  apply (proj2 (proj2 (turns_carry_first_tap_question (worldAfter secondTurn)
                         (worldAfter_reachable secondTurn)))).
  - vm_compute. left. reflexivity.
  - vm_compute. right. left. reflexivity.
Defined.

Lemma handle_prompts (w w1 : World) (e : Event) :
  handle e w = Some w1 -> promptCalls (effects w1) = promptCalls (effects w).
Proof.
  destruct w as [[ph cq st ut fb h sm] rr cap pd ef sd sid hs mt].
  intros H. destruct e; simpl in H; open_handlers H;
    rewrite ?andb_false_r in H; split_cases H; injection H as <-;
    tidy_calls; reflexivity.
Qed.

(** X14. In every reachable session state the chat collaborator has been
    asked exactly once, with the fixed opening prompt: no event makes the
    session ask for an opening question again. *)
Theorem opening_prompt_sent_once (w : World) :
  reachable w -> promptCalls (effects w) = [openingPrompt].
Proof.
  revert w. apply reachable_ind.
  - intros b. reflexivity.
  - intros w0 e w' _ HP Hs.
    destruct (step_decompose _ _ _ Hs)
      as (_ & w1 & Hh & _ & _ & _ & _ & _ & _ & He).
    rewrite <- HP, <- (handle_prompts _ _ _ Hh). unfold promptCalls.
    now apply appended_calls; [apply step_effects|].
Qed.

Lemma opening_prompt_sent_once_witness :
  promptCalls (effects (worldAfter secondTurn)) = [openingPrompt].
Proof.
  apply (opening_prompt_sent_once (worldAfter secondTurn)).
  exists true, secondTurn. vm_compute. reflexivity.
Defined.

(** X15. Tapping the microphone twice in a row, on a platform with speech
    recognition, does not bring the machine back by itself: the first tap
    enters [LISTENING] and clears the transcript, the second tap only asks
    the recognizer to stop and leaves every state cell as it is, and it is
    the recognizer's end event that returns to [AWAITING_ANSWER], with the
    question and the history as before. *)
Theorem tap_twice_then_end (w : World) :
  reachable w ->
  mounted w = true ->
  hasSpeechRecognition w = true ->
  interviewState (cells w) = AWAITING_ANSWER ->
  exists w1 w2 w3,
    step w ClickMicrophone = Some w1
    /\ step w1 ClickMicrophone = Some w2
    /\ step w2 RecognitionEnd = Some w3
    /\ interviewState (cells w1) = LISTENING
    /\ userTranscript (cells w1) = []
    /\ cells w2 = cells w1
    /\ effects w2 = effects w1 ++ [RecognitionStop]
    /\ interviewState (cells w3) = AWAITING_ANSWER
    /\ currentQuestion (cells w3) = currentQuestion (cells w)
    /\ interviewHistory (cells w3) = interviewHistory (cells w).
Proof.
  intros Hr Hm Hhs Hph.
  destruct (reachable_sessionInvariant w Hr) as [Hd Hinv].
  destruct w as [[ph cq st ut fb h sm] rr cap pd ef sd sid hs mt].
  unfold phaseInvariant, depsOf in *. simpl in *. subst ph hs mt sd.
  destruct Hinv as (_ & _ & Hcap & _).
  destruct rr as [rec|]; destruct cap; try congruence.
  all: destruct cq as [|c cq].
  all: eexists; eexists; eexists.
  all: split; [eval_step|].
  all: split; [eval_step|].
  all: split; [eval_step|].
  all: simpl; repeat split.
Qed.

Lemma tap_twice_then_end_witness :
  exists w1 w2 w3,
    step (worldAfter opening) ClickMicrophone = Some w1
    /\ step w1 ClickMicrophone = Some w2
    /\ step w2 RecognitionEnd = Some w3
    /\ interviewState (cells w1) = LISTENING
    /\ userTranscript (cells w1) = []
    /\ cells w2 = cells w1
    /\ effects w2 = effects w1 ++ [RecognitionStop]
    /\ interviewState (cells w3) = AWAITING_ANSWER
    /\ currentQuestion (cells w3) = currentQuestion (cells (worldAfter opening))
    /\ interviewHistory (cells w3)
       = interviewHistory (cells (worldAfter opening)).
Proof.
  apply (tap_twice_then_end (worldAfter opening)).
  - apply worldAfter_reachable.
  - vm_compute. reflexivity.
  - vm_compute. reflexivity.
  - vm_compute. reflexivity.
Defined.

End SessionProgress.
Section SessionEdges.


(** X17. In a reachable session state a capture error can
    only arrive while [LISTENING]; it returns the machine to
    [AWAITING_ANSWER] with the history, the pending calls and the evaluator
    calls as they were, and the current question, if not empty, is spoken
    again. *)
Theorem capture_error_returns (w w' : World) :
  reachable w ->
  step w RecognitionError = Some w' ->
  interviewState (cells w) = LISTENING
  /\ interviewState (cells w') = AWAITING_ANSWER
  /\ interviewHistory (cells w') = interviewHistory (cells w)
  /\ currentQuestion (cells w') = currentQuestion (cells w)
  /\ pending w' = pending w
  /\ feedbackCalls (effects w') = feedbackCalls (effects w)
  /\ spoken (effects w')
     = spoken (effects w) ++
       (if truthy (currentQuestion (cells w))
        then [currentQuestion (cells w)] else []).
Proof.
  intros Hr Hs.
  destruct (reachable_sessionInvariant w Hr) as [Hd Hinv].
  destruct w as [[ph cq st ut fb h sm] rr cap pd ef sd sid hs mt].
  unfold phaseInvariant, depsOf in *. simpl in *. subst sd.
  unfold step in Hs. simpl in Hs. destruct mt; [|discriminate].
  destruct rr as [rec|]; [|discriminate].
  destruct cap; try discriminate.
  assert (Hph : ph = LISTENING).
  { destruct ph; try reflexivity; try contradiction; open_await; congruence. }
  subst ph. simpl in Hs. injection Hs as <-.
  unfold commit, speakEffect, depsOf. simpl.
  rewrite decide_False by discriminate.
  destruct cq as [|c cq]; simpl; unfold spoken, feedbackCalls;
    rewrite ?omap_app; simpl; rewrite ?app_nil_r; repeat split.
Qed.

Lemma capture_error_returns_witness :
  interviewState
    (cells (worldAfter (opening ++ [ClickMicrophone; RecognitionError])))
  = AWAITING_ANSWER.
Proof.
  refine (proj1 (proj2 (capture_error_returns
            (worldAfter (opening ++ [ClickMicrophone]))
            (worldAfter (opening ++ [ClickMicrophone; RecognitionError]))
            (worldAfter_reachable _) _))).
  vm_compute. reflexivity.
Defined.

End SessionEdges.
(** ** The translated-text component *)

Section TranslatedTextFacts.

Lemma In_delete {A : Type} (i : nat) (l : list A) (x : A) :
  In x (delete i l) -> In x l.
Proof.
  revert i. induction l as [|a l IH]; intros i H; [destruct i; exact H|].
  destruct i; simpl in *; [now right|].
  destruct H as [H|H]; [now left|right; now apply (IH i)].
Qed.

Ltac t_facts I1 I2 I4 :=
  intros; simpl in *;
  repeat match goal with
  | H : In _ (_ ++ _) |- _ => apply in_app_or in H; destruct H as [H|H]
  | H : In _ [_] |- _ => destruct H as [H|[]]
  | H : In _ [] |- _ => destruct H
  | H : In _ (delete _ _) |- _ => apply In_delete in H
  | H : _ \/ _ |- _ => destruct H as [H|H]
  | H : (_, _) = (_, _) |- _ => injection H as ? ?
  end;
  subst; simpl in *;
  try match goal with
  | H : In ?rq (openRequests _) |- _ =>
    pose proof (I1 rq H);
    try (match goal with
         | E : requestRun rq = _ |- _ => destruct (I2 rq H E) as (? & ? & ? & ?)
         end)
  end;
  try match goal with
  | H : In (?t, ?l) (requested _) |- _ => destruct (I4 t l H)
  end;
  try congruence; try lia; auto.

Lemma mountT_invariant (text : jsstring) (lang : Language) :
  requestsInvariant (mountT text lang).
Proof.
  unfold mountT, runEffect, requestsInvariant. simpl.
  destruct (bool_decide (lang = English)) eqn:Hl; simpl;
    [|apply bool_decide_eq_false in Hl; destruct text as [|c text]; simpl].
  all: repeat split.
  all: t_facts (fun (rq : Request) (H : False) => H)
               (fun (rq : Request) (H : False) => H)
               (fun (t : jsstring) (l : Language) (H : False) => H).
Qed.

Lemma stepT_invariant (st st' : TState) (e : TEvent) :
  requestsInvariant st -> stepT st e = Some st' -> requestsInvariant st'.
Proof.
  intros (I1 & I2 & I3 & I4) H. destruct e as [text lang|i tr|]; simpl in H.
  - destruct (alive st); [|discriminate].
    destruct (bool_decide _) eqn:Hsame.
    + injection H as <-. exact (conj I1 (conj I2 (conj I3 I4))).
    + injection H as <-. unfold runEffect, requestsInvariant. simpl.
      destruct (bool_decide (lang = English)) eqn:Hl; simpl;
        [|apply bool_decide_eq_false in Hl; destruct text as [|c text]; simpl].
      all: repeat split.
      all: t_facts I1 I2 I4.
  - destruct (openRequests st !! i) as [rq|] eqn:Hi; [|discriminate].
    injection H as <-.
    assert (Hin : In rq (openRequests st)).
    { apply list_elem_of_In. eapply list_elem_of_lookup_2. exact Hi. }
    destruct (alive st && (requestRun rq =? latestRun st)) eqn:Hc; simpl.
    + apply andb_true_iff in Hc. destruct Hc as [_ Hc].
      apply Nat.eqb_eq in Hc.
      destruct (I2 rq Hin Hc) as (_ & _ & Hl & Hch).
      repeat split; simpl.
      all: clear Hin; t_facts I1 I2 I4.
    + repeat split; simpl.
      all: clear Hin; t_facts I1 I2 I4.
  - destruct (alive st); [|discriminate]. injection H as <-.
    repeat split; simpl.
    all: t_facts I1 I2 I4.
Qed.

Lemma runT_invariant (es : list TEvent) (st st' : TState) :
  requestsInvariant st -> runT st es = Some st' -> requestsInvariant st'.
Proof.
  revert st. induction es as [|e es IH]; intros st Hi H; simpl in H.
  - now injection H as <-.
  - destruct (stepT st e) as [st1|] eqn:Hs; [|discriminate].
    apply (IH st1); [|exact H]. now apply (stepT_invariant st st1 e).
Qed.

(** X18. While the base language is selected, or the text is empty, [T]
    shows its text as it is, whatever happened before: a translation that
    was requested earlier and arrives late is dropped. *)
Theorem T_shows_original_in_base_language (text : jsstring) (lang : Language)
    (es : list TEvent) (st : TState) :
  runT (mountT text lang) es = Some st ->
  language st = English \/ children st = [] ->
  translatedText st = children st.
Proof.
  intros Hr. apply (runT_invariant es (mountT text lang) st); [|exact Hr].
  apply mountT_invariant.
Qed.

(** X19. [T] never asks for a translation of the empty text, nor for a
    translation into the base language. *)
Theorem T_requests_only_real_translations (text : jsstring) (lang : Language)
    (es : list TEvent) (st : TState) (t : jsstring) (l : Language) :
  runT (mountT text lang) es = Some st ->
  In (t, l) (requested st) ->
  t <> [] /\ l <> English.
Proof.
  intros Hr.
  destruct (runT_invariant es (mountT text lang) st (mountT_invariant _ _) Hr)
    as (_ & _ & _ & H).
  apply H.
Qed.

(** X20. A translation that resolves changes what [T] shows only if it
    was requested for the text and the language [T] has now: the answer to
    a request made for an earlier text or language never replaces the
    display. *)
Theorem T_ignores_outdated_translations (text : jsstring) (lang : Language)
    (es : list TEvent) (st st' : TState) (i : nat) (translation : jsstring) :
  runT (mountT text lang) es = Some st ->
  stepT st (Resolve i translation) = Some st' ->
  translatedText st' <> translatedText st ->
  exists rq,
    openRequests st !! i = Some rq
    /\ requestText rq = children st
    /\ requestLanguage rq = language st
    /\ translatedText st' = translation
    /\ alive st = true.
Proof.
  intros Hr Hs Hne.
  destruct (runT_invariant es (mountT text lang) st (mountT_invariant _ _) Hr)
    as (_ & I2 & _ & _).
  simpl in Hs. destruct (openRequests st !! i) as [rq|] eqn:Hi; [|discriminate].
  injection Hs as <-.
  assert (Hin : In rq (openRequests st)).
  { apply list_elem_of_In. eapply list_elem_of_lookup_2. exact Hi. }
  destruct (alive st) eqn:Ha; simpl in *; [|congruence].
  destruct (requestRun rq =? latestRun st) eqn:Hc; simpl in *; [|congruence].
  apply Nat.eqb_eq in Hc. destruct (I2 rq Hin Hc) as (H1 & H2 & _).
  exists rq. repeat split; assumption.
Qed.

End TranslatedTextFacts.
(** ** The guide screen *)

Section GuideFacts.

Variable toLowerCase : jsstring -> jsstring.
Variable initialMessage : Message.

Lemma inTurn_snoc (a : MessageAuthor) (l : list Message) (m : Message) :
  inTurn a l ->
  author m = (if Nat.even (length l) then a else nextAfter a) ->
  inTurn a (l ++ [m]).
Proof.
  revert a. induction l as [|x l IH]; intros a Ht Hm.
  - split; [exact Hm|exact I].
  - destruct Ht as [Hx Ht]. split; [exact Hx|]. apply IH; [exact Ht|].
    rewrite Hm. cbn [length]. rewrite Nat.even_succ, <- Nat.negb_even.
    destruct (Nat.even (length l)); destruct a; reflexivity.
Qed.

Lemma nextSpeaker_snoc (l : list Message) (m : Message) :
  nextSpeaker (l ++ [m]) = nextAfter (nextSpeaker l).
Proof.
  unfold nextSpeaker. rewrite length_app. simpl.
  rewrite Nat.add_1_r, Nat.even_succ, <- Nat.negb_even.
  destruct (Nat.even (length l)); reflexivity.
Qed.

Lemma user_turn (l : list Message) (m : Message) :
  inTurn USER l -> author m = nextSpeaker l -> inTurn USER (l ++ [m]).
Proof.
  intros Ht Hm. apply inTurn_snoc; [exact Ht|]. rewrite Hm.
  unfold nextSpeaker. destruct (Nat.even (length l)); reflexivity.
Qed.

(** X21. A message made of whitespace only, and any message sent while a
    reply is being awaited, is ignored by [handleSend]: no message is
    appended, the input is kept, and no collaborator is called. *)
Theorem handleSend_ignored (r : GuideCells) (messageText : jsstring)
    (w : GuideWorld) :
  forallb is_whitespace messageText = true \/ isLoading r = true ->
  handleSend toLowerCase r messageText w = w.
Proof.
  intros H. unfold handleSend. rewrite truthy_trim.
  destruct H as [H|H]; rewrite H; simpl; [reflexivity|].
  now rewrite orb_true_r.
Qed.

Lemma spokenGuide_snoc (l : list GuideEffect) (e : GuideEffect)
    (s : jsstring) :
  In s (spokenGuide (l ++ [e])) ->
  In s (spokenGuide l) \/ e = GuideSpeak s.
Proof.
  unfold spokenGuide. rewrite omap_app. intros H. apply in_app_or in H.
  destruct H as [H|H]; [now left|right].
  destruct e; simpl in H; try contradiction.
  destruct H as [<-|[]]. reflexivity.
Qed.

Lemma takeAwait_single (a : GuideAwait) (l rest : list GuideAwait) :
  length l <= 1 -> takeAwait a l = Some rest -> rest = [] /\ l = [a].
Proof.
  destruct l as [|b [|c l]]; simpl; intros Hl H; try discriminate; [|lia].
  destruct (decide (a = b)) as [->|]; [|discriminate].
  injection H as <-. split; reflexivity.
Qed.

Lemma guideStep_invariant (w w' : GuideWorld) (e : GuideEvent) :
  guideInvariant initialMessage w ->
  guideStep toLowerCase w e = Some w' ->
  guideInvariant initialMessage w'.
Proof.
  destruct w as [[msgs inp ld] sk aw ef].
  intros (conv & Hm & Ht & Hl & Ha & Hal & Hsp) H. simpl in *. subst msgs.
  assert (Hreply : forall (m : Message) (aw' : list GuideAwait) ef' sk' inp',
    ld = true -> author m = AI ->
    (forall t, In t (spokenGuide ef') ->
       In t (spokenGuide ef) \/ t = text m) ->
    length aw' <= 1 -> aw' = [] ->
    guideInvariant initialMessage
      (mkGuideWorld (mkGuideCells ((initialMessage :: conv) ++ [m]) inp' false)
         sk' aw' ef')).
  { intros m aw' ef' sk' inp' Hld Hau Hsp' Hlen Hnil.
    exists (conv ++ [m]). simpl. repeat split.
    - apply user_turn; [exact Ht|]. rewrite Hau. symmetry. now apply Hl.
    - discriminate.
    - intros E. rewrite nextSpeaker_snoc in E.
      rewrite (proj1 Hl Hld) in E. discriminate.
    - exact Hlen.
    - intros Hne. contradiction.
    - intros t Hin. destruct (Hsp' t Hin) as [Hold| ->].
      + destruct (Hsp t Hold) as (m0 & Hin0 & Hau0 & Htx0).
        exists m0. rewrite in_app_iff. auto.
      + exists m. rewrite in_app_iff. simpl. auto. }
  destruct e as [t|v|res|err|resp|]; simpl in H.
  - (* Send *)
    injection H as <-. unfold handleSend. simpl.
    destruct (negb (truthy (trim t)) || ld) eqn:Hg.
    + exists conv. simpl. repeat split; auto; apply Hl.
    + apply orb_false_iff in Hg. destruct Hg as [_ ->].
      assert (Hu : nextSpeaker conv = USER).
      { destruct (nextSpeaker conv) eqn:E; [reflexivity|].
        destruct Hl as [_ Hl]. specialize (Hl eq_refl). discriminate. }
      assert (Haw : aw = []).
      { destruct aw; [reflexivity|]. discriminate Hal. discriminate. }
      subst aw.
      assert (Hconv : inTurn USER (conv ++ [mkMessage USER t justNow])).
      { apply user_turn; [exact Ht|]. now rewrite Hu. }
      assert (Hnext : nextSpeaker (conv ++ [mkMessage USER t justNow]) = AI).
      { now rewrite nextSpeaker_snoc, Hu. }
      assert (Hkeep : forall s, In s (spokenGuide ef) ->
        exists m, In m (conv ++ [mkMessage USER t justNow])
                  /\ author m = AI /\ text m = s).
      { intros s Hs. destruct (Hsp s Hs) as (m0 & Hin0 & Hau0 & Htx0).
        exists m0. rewrite in_app_iff. auto. }
      destruct (includes _ _); [|destruct (includes _ _)]; simpl.
      * exists (conv ++ [mkMessage USER t justNow]). simpl.
        repeat split; auto.
        unfold spokenGuide. rewrite omap_app, app_nil_r. exact Hkeep.
      * exists ((conv ++ [mkMessage USER t justNow])
                ++ [mkMessage AI interviewReply justNow]).
        simpl. repeat split.
        all: try discriminate.
        all: try (simpl; lia).
        all: try solve [apply user_turn; [exact Hconv|now rewrite Hnext]].
        all: try solve [intros E; rewrite nextSpeaker_snoc, Hnext in E;
                        discriminate E].
        all: try solve [intros Hne; contradiction].
        unfold spokenGuide. rewrite !omap_app. simpl.
        rewrite app_nil_r. intros s Hs. apply in_app_or in Hs.
        destruct Hs as [Hs|[<-|[]]].
        -- destruct (Hsp s Hs) as (m0 & Hin0 & Hau0 & Htx0).
           exists m0. rewrite !in_app_iff. auto.
        -- exists (mkMessage AI interviewReply justNow).
           rewrite !in_app_iff. simpl. auto.
      * exists (conv ++ [mkMessage USER t justNow]). simpl.
        repeat split; auto.
        unfold spokenGuide. rewrite omap_app, app_nil_r. exact Hkeep.
  - (* TypeInput *)
    destruct ld; [discriminate|]. injection H as <-.
    exists conv. simpl. repeat split; auto; apply Hl.
  - (* SkillAnalysisResolved *)
    destruct (takeAwait AwaitSkillAnalysis aw) as [rest|] eqn:Hta;
      [|discriminate].
    destruct (takeAwait_single _ _ _ Ha Hta) as [-> ->].
    injection H as <-. unfold analysis_resolved. simpl.
    apply Hreply;
      [apply Hal; discriminate|reflexivity| |simpl; lia|reflexivity].
    intros s Hs. apply spokenGuide_snoc in Hs.
    destruct Hs as [Hs|Hs]; [now left|right; now injection Hs].
  - (* SkillAnalysisRejected *)
    destruct (takeAwait AwaitSkillAnalysis aw) as [rest|] eqn:Hta;
      [|discriminate].
    destruct (takeAwait_single _ _ _ Ha Hta) as [-> ->].
    injection H as <-. unfold analysis_rejected. simpl.
    apply Hreply;
      [apply Hal; discriminate|reflexivity|auto|simpl; lia|reflexivity].
  - (* ChatResolved *)
    destruct (takeAwait AwaitChat aw) as [rest|] eqn:Hta; [|discriminate].
    destruct (takeAwait_single _ _ _ Ha Hta) as [-> ->].
    injection H as <-. unfold chat_resolved. simpl.
    apply Hreply;
      [apply Hal; discriminate|reflexivity| |simpl; lia|reflexivity].
    intros s Hs. apply spokenGuide_snoc in Hs.
    destruct Hs as [Hs|Hs]; [now left|right; now injection Hs].
  - (* ChatRejected *)
    destruct (takeAwait AwaitChat aw) as [rest|] eqn:Hta; [|discriminate].
    destruct (takeAwait_single _ _ _ Ha Hta) as [-> ->].
    injection H as <-. unfold chat_rejected. simpl.
    exists conv. simpl. repeat split; auto; try apply Hl.
Qed.

Lemma mountGuide_invariant :
  guideInvariant initialMessage (mountGuide initialMessage).
Proof.
  exists []. simpl. repeat split; try discriminate; try lia;
    try contradiction.
Qed.

Lemma guideRun_invariant (es : list GuideEvent) (w w' : GuideWorld) :
  guideInvariant initialMessage w ->
  guideRun toLowerCase w es = Some w' ->
  guideInvariant initialMessage w'.
Proof.
  revert w. induction es as [|e es IH]; intros w Hi H; simpl in H.
  - now injection H as <-.
  - destruct (guideStep toLowerCase w e) as [w1|] eqn:Hs; [|discriminate].
    apply (IH w1); [|exact H]. now apply (guideStep_invariant w w1 e).
Qed.

(** X22. Whatever happens on the guide screen, the conversation after the
    greeting goes in turns, the user first, then the guide, and so on; the
    screen is loading exactly while the last message is a message of the
    user; and at most one collaborator call is awaited, only while
    loading. *)
Theorem conversation_in_turns (es : list GuideEvent) (w : GuideWorld) :
  guideRun toLowerCase (mountGuide initialMessage) es = Some w ->
  exists conversation,
    messages (guideCells w) = initialMessage :: conversation
    /\ inTurn USER conversation
    /\ (isLoading (guideCells w) = true <-> nextSpeaker conversation = AI)
    /\ length (awaiting w) <= 1
    /\ (awaiting w <> [] -> isLoading (guideCells w) = true).
Proof.
  intros Hr.
  destruct (guideRun_invariant es _ w mountGuide_invariant Hr)
    as (conv & H1 & H2 & H3 & H4 & H5 & _).
  exists conv. repeat split; auto; apply H3.
Qed.


Lemma blocked_step (w w' : GuideWorld) (e : GuideEvent) :
  isLoading (guideCells w) = true -> awaiting w = [] ->
  guideStep toLowerCase w e = Some w' -> w' = w.
Proof.
  intros Hl Ha H. destruct e; simpl in H; rewrite ?Hl, ?Ha in H;
    simpl in H; try discriminate.
  injection H as <-. unfold handleSend. now rewrite Hl, orb_true_r.
Qed.

(** X24. If the chat collaborator rejects, the guide screen stays loading
    for good: the user's message stays without a reply, and every message
    sent afterwards is ignored, so no collaborator is called again. *)
Theorem chat_rejection_blocks (es es' : list GuideEvent)
    (w w1 w' : GuideWorld) :
  guideRun toLowerCase (mountGuide initialMessage) es = Some w ->
  guideStep toLowerCase w ChatRejected = Some w1 ->
  guideRun toLowerCase w1 es' = Some w' ->
  isLoading (guideCells w1) = true
  /\ guideCells w1 = guideCells w
  /\ w' = w1.
Proof.
  intros Hr Hs Hr'.
  destruct (guideRun_invariant es _ w mountGuide_invariant Hr)
    as (conv & _ & _ & _ & H4 & H5 & _).
  simpl in Hs.
  destruct (takeAwait AwaitChat (awaiting w)) as [rest|] eqn:Hta;
    [|discriminate].
  destruct (takeAwait_single _ _ _ H4 Hta) as [-> Haw].
  injection Hs as <-. unfold chat_rejected in *.
  assert (Hl : isLoading (guideCells w) = true).
  { apply H5. rewrite Haw. discriminate. }
  split; [exact Hl|]. split; [reflexivity|].
  assert (Hgen : forall w0, isLoading (guideCells w0) = true ->
            awaiting w0 = [] ->
            guideRun toLowerCase w0 es' = Some w' -> w' = w0).
  { clear Hr'. induction es' as [|e es' IH]; intros w0 Hl0 Ha0 H; simpl in H.
    - now injection H as <-.
    - destruct (guideStep toLowerCase w0 e) as [w2|] eqn:Hs2; [|discriminate].
      rewrite (blocked_step w0 w2 e Hl0 Ha0 Hs2) in H. now apply IH. }
  apply Hgen; [exact Hl|reflexivity|exact Hr'].
Qed.

(** X25. The analysis kept for the goals page changes only when a skill
    analysis succeeds, and then it is the result received: a failed
    analysis, a chat reply or a message never touch it. *)
Theorem analysis_changes_on_success_only (w w' : GuideWorld) (e : GuideEvent) :
  guideStep toLowerCase w e = Some w' ->
  skillAnalysis w' <> skillAnalysis w ->
  exists result,
    e = SkillAnalysisResolved result /\ skillAnalysis w' = Some result.
Proof.
  intros H Hne. destruct e as [t|v|res|err|resp|]; simpl in H.
  - injection H as <-. exfalso. apply Hne. unfold handleSend.
    destruct (_ || _); [reflexivity|].
    destruct (includes _ _); [|destruct (includes _ _)]; reflexivity.
  - destruct (isLoading _); [discriminate|]. injection H as <-.
    now exfalso.
  - destruct (takeAwait _ _); [|discriminate]. injection H as <-.
    exists res. split; reflexivity.
  - destruct (takeAwait _ _); [|discriminate]. injection H as <-.
    now exfalso.
  - destruct (takeAwait _ _); [|discriminate]. injection H as <-.
    now exfalso.
  - destruct (takeAwait _ _); [|discriminate]. injection H as <-.
    now exfalso.
Qed.

End GuideFacts.
(** ** The added statements at concrete inputs *)

Section MoreWitnesses.

Lemma speakText_cancel_then_speak_witness :
  speakText true mountedVoices [] = []
  /\ exists voice,
       speakText true mountedVoices question1
       = [SynthesisCancel; SynthesisSpeak question1 voice].
Proof.
  split.
  - apply (proj1 (speakText_cancel_then_speak true mountedVoices [])).
    right. reflexivity.
  - destruct (proj2 (speakText_cancel_then_speak true mountedVoices question1)
                eq_refl) as (voice & H & _).
    + discriminate.
    + exists voice. exact H.
Defined.

Lemma speak_after_refresh_witness :
  exists v,
    speakText true (onvoiceschanged platformVoices initialVoiceState) question1
    = [SynthesisCancel; SynthesisSpeak question1 (Some v)]
    /\ In v platformVoices
    /\ startsWith (js "en") (lang v) = true
    /\ selectedVoiceURI (onvoiceschanged platformVoices initialVoiceState)
       = Some (voiceURI v).
Proof.
  apply (speak_after_refresh platformVoices initialVoiceState question1).
  - vm_compute. discriminate.
  - intros v [<-|[<-|[<-|[]]]]; vm_compute; discriminate.
  - vm_compute. discriminate.
Defined.

Lemma refresh_without_english_voice_witness :
  availableVoices (onvoiceschanged [voiceChloe] mountedVoices) = []
  /\ selectedVoiceURI (onvoiceschanged [voiceChloe] mountedVoices)
     = selectedVoiceURI mountedVoices.
Proof.
  destruct (refresh_without_english_voice [voiceChloe] mountedVoices question1)
    as (H1 & H2 & _).
  - vm_compute. reflexivity.
  - split; [exact H1|exact H2].
Defined.



Lemma T_shows_original_in_base_language_witness :
  translatedText (labelAfter (goalsLabel ++ [Resolve 0 (js "???")]))
  = children (labelAfter (goalsLabel ++ [Resolve 0 (js "???")])).
Proof.
  apply (T_shows_original_in_base_language (js "Guide") Tamil
           (goalsLabel ++ [Resolve 0 (js "???")])).
  - vm_compute. reflexivity.
  - left. vm_compute. reflexivity.
Defined.

Lemma T_requests_only_real_translations_witness :
  js "Goals" <> [] /\ Tamil <> English.
Proof.
  apply (T_requests_only_real_translations (js "Guide") Tamil goalsLabel
           (labelAfter goalsLabel)).
  - vm_compute. reflexivity.
  - vm_compute. right. left. reflexivity.
Defined.

Lemma T_ignores_outdated_translations_witness :
  exists rq,
    openRequests (labelAfter [Rerender (js "Goals") Tamil]) !! 1 = Some rq
    /\ requestText rq = children (labelAfter [Rerender (js "Goals") Tamil])
    /\ requestLanguage rq = language (labelAfter [Rerender (js "Goals") Tamil])
    /\ translatedText
         (labelAfter [Rerender (js "Goals") Tamil; Resolve 1 (js "Ilakkukal")])
       = js "Ilakkukal"
    /\ alive (labelAfter [Rerender (js "Goals") Tamil]) = true.
Proof.
  apply (T_ignores_outdated_translations (js "Guide") Tamil
           [Rerender (js "Goals") Tamil]
           (labelAfter [Rerender (js "Goals") Tamil])
           (labelAfter [Rerender (js "Goals") Tamil;
                        Resolve 1 (js "Ilakkukal")])
           1 (js "Ilakkukal")).
  - vm_compute. reflexivity.
  - vm_compute. reflexivity.
  - vm_compute. discriminate.
Defined.

Lemma handleSend_ignored_witness :
  handleSend asciiLower (guideCells (mountGuide greeting)) (js "  ")
    (mountGuide greeting)
  = mountGuide greeting.
Proof.
  apply (handleSend_ignored asciiLower (guideCells (mountGuide greeting))
           (js "  ") (mountGuide greeting)).
  left. reflexivity.
Defined.

Lemma conversation_in_turns_witness :
  exists conversation,
    messages (guideCells (guideAfter askedAndAnswered))
    = greeting :: conversation
    /\ inTurn USER conversation
    /\ (isLoading (guideCells (guideAfter askedAndAnswered)) = true
        <-> nextSpeaker conversation = AI)
    /\ length (awaiting (guideAfter askedAndAnswered)) <= 1
    /\ (awaiting (guideAfter askedAndAnswered) <> [] ->
        isLoading (guideCells (guideAfter askedAndAnswered)) = true).
Proof.
  apply (conversation_in_turns asciiLower greeting askedAndAnswered).
  vm_compute. reflexivity.
Defined.


Lemma chat_rejection_blocks_witness :
  isLoading (guideCells (guideAfter (askedAndFailed ++ [ChatRejected]))) = true
  /\ guideCells (guideAfter (askedAndFailed ++ [ChatRejected]))
     = guideCells (guideAfter askedAndFailed)
  /\ guideAfter (askedAndFailed ++ [ChatRejected; Send (js "Hello?")])
     = guideAfter (askedAndFailed ++ [ChatRejected]).
Proof.
  apply (chat_rejection_blocks asciiLower greeting askedAndFailed
           [Send (js "Hello?")] (guideAfter askedAndFailed)).
  - vm_compute. reflexivity.
  - vm_compute. reflexivity.
  - vm_compute. reflexivity.
Defined.

Lemma analysis_changes_on_success_only_witness :
  exists result,
    SkillAnalysisResolved (mkSkillAnalysis [] [])
    = SkillAnalysisResolved result
    /\ skillAnalysis
         (guideAfter [Send (js "Analyze my skills");
                      SkillAnalysisResolved (mkSkillAnalysis [] [])])
       = Some result.
Proof.
  apply (analysis_changes_on_success_only asciiLower
           (guideAfter [Send (js "Analyze my skills")])).
  - vm_compute. reflexivity.
  - vm_compute. discriminate.
Defined.

End MoreWitnesses.
